(** * Storage layer: IS25LP080D flash driver and CP23 file-handle pool

    Shallow embedding of [IS25LP080D_driver.c], [littlefs.c] and the macros
    of [littlefs.h].  Unsigned C integers are [Z] with the wrap-around
    written out, byte buffers are [list Z], the external services the driver
    calls (SPI transport, software timer, diagnostics) are the methods of a
    type class, and every call the driver makes is recorded in a trace. *)

From Stdlib Require Import ZArith Lia List Bool.
From stdpp Require Import base numbers option list gmap.

Local Open Scope Z_scope.

(** ** Machine integers *)

Definition uint8 (x : Z) : Z := x mod 256.
Definition uint32 (x : Z) : Z := x mod 2 ^ 32.

(** The four bytes of a 32-bit value as they lie in memory on the
    little-endian target, least-significant byte first. *)
Definition le_bytes32 (x : Z) : list Z :=
  [x mod 256; (x / 256) mod 256; (x / 65536) mod 256; (x / 16777216) mod 256].

(** Inverse view: the 32-bit value held by four consecutive bytes. *)
Definition le_value32 (bs : list Z) : Z :=
  match bs with
  | [b0; b1; b2; b3] => b0 + 256 * b1 + 65536 * b2 + 16777216 * b3
  | _ => 0
  end.

(** ** littlefs.h: attribute keys and authorization helpers *)

Module Attr.

Definition CP23LFS_ATTR_DID : nat := 0.
Definition CP23LFS_ATTR_DATE : nat := 1.
Definition CP23LFS_ATTR_TIME : nat := 2.
Definition CP23LFS_ATTR_GROUP : nat := 3.
Definition CP23LFS_ATTR_AUTH : nat := 4.
Definition CP23LFS_ATTR_OWNER : nat := 5.
Definition CP23LFS_ATTR_COMPANY : nat := 6.
Definition CP23LFS_ATTR_NUM : nat := 7.

Definition CP23LFS_DATE_LEN : nat := 11.
Definition CP23LFS_TIME_LEN : nat := 9.
Definition CP23LFS_OWNER_LEN : nat := 32.
Definition CP23LFS_COMPANY_LEN : nat := 32.

Definition LfsOwnerGroup (x : Z) : Z := Z.land x 0x03.
Definition LfsUserAuth (x : Z) : Z := Z.land x 0x03.
Definition LfsMNFAuth (x : Z) : Z := Z.land (Z.shiftr x 2) 0x03.
Definition LfsBPAuth (x : Z) : Z := Z.land (Z.shiftr x 4) 0x03.
Definition LfsSysAuth (x : Z) : Z := Z.land (Z.shiftr x 6) 0x03.

End Attr.

(** ** IS25LP080D_driver.c: constants and command framing *)

Module Flash.

Definition CMD_READ : Z := 0x03.
Definition CMD_WRITE_ENABLE : Z := 0x06.
Definition CMD_PAGE_PROGRAM : Z := 0x02.
Definition CMD_SECTOR_ERASE : Z := 0x20.
Definition CMD_BLOCK_ERASE : Z := 0xD8.
Definition CMD_READ_STATUS : Z := 0x05.
Definition CMD_WRITE_DISABLE : Z := 0x04.

Definition IS25LP080D_ERROR : Z := -5.
Definition IS25LP080D_BUSY_TIMEOUT_MSEC : Z := 2000.

(** Modelled from the spec: the union [split32_t] and the byte selectors
    [SPLIT_T0] .. [SPLIT_T3] are declared in utilities.h, which is not
    available.  [((split32_t)x).b] is the in-memory byte view of
    the 32-bit value [x], and [SPLIT_Tn] selects the byte of weight
    [2^(8n)], which is what makes the framed address "most-significant byte
    first" in the spec. *)
Definition SPLIT_T0 : nat := 0.
Definition SPLIT_T1 : nat := 1.
Definition SPLIT_T2 : nat := 2.
Definition SPLIT_T3 : nat := 3.

Definition split32_b (x : Z) (sel : nat) : Z :=
  nth sel (le_bytes32 (uint32 x)) 0.

(** The initializer shared by the three addressed operations:
    [uint8_t cmd[4] = {opcode, b[SPLIT_T2], b[SPLIT_T1], b[SPLIT_T0]}]. *)
Definition cmd4 (opcode addr : Z) : list Z :=
  [uint8 opcode; split32_b addr SPLIT_T2; split32_b addr SPLIT_T1;
   split32_b addr SPLIT_T0].

(** What the device makes of the three address bytes of a frame. *)
Definition frame_addr (cmd : list Z) : Z :=
  match cmd with
  | _ :: a2 :: a1 :: a0 :: _ => 65536 * a2 + 256 * a1 + a0
  | _ => 0
  end.

(** *** External services

    The driver reaches the hardware and the rest of the firmware only through
    functions declared in spi.h, swtimer.h and the diagnostic headers.  They
    are the methods of [Platform]: each acts on a world [W] (bus, device,
    clock, and the driver's local [swtimer_t]) and returns what the C
    function returns.  [SPI_Receive] is given the destination buffer and
    returns it as the callee left it.  [SWTimerTimeout] is always called
    with the unit [mSec] and no callback, so only the duration is kept. *)

Inductive spi_id : Set := SPI1_ID.
Inductive rtt_code : Set := RTT_EC_IS25LP080D_TIMEOUT.
Inductive error_code : Set := EC_IS25LP080D_TIMEOUT.

Definition IS25LP080D_SPI_LINE : spi_id := SPI1_ID.

Class Platform (W : Type) : Type := {
  SPIn_Init : spi_id → W → W;
  SPI_CS_Enable : spi_id → W → W;
  SPI_CS_Disable : spi_id → W → W;
  SPI_Transmit : spi_id → list Z → W → bool * W;
  SPI_Receive : spi_id → list Z → Z → W → bool * list Z * W;
  LoadSWTimer : W → W;
  SWTimerTimeout : Z → W → bool * W;
  RTT_Printf : rtt_code → Z → W → W;
  ManageEventError : error_code → bool → Z → W → W
}.

(** One entry per call of an external service, with its arguments and its
    result. *)
Inductive event : Type :=
  | EvInit (line : spi_id)
  | EvCSEnable (line : spi_id)
  | EvCSDisable (line : spi_id)
  | EvTransmit (line : spi_id) (data : list Z) (ok : bool)
  | EvReceive (line : spi_id) (size : Z) (ok : bool) (data : list Z)
  | EvLoadSWTimer
  | EvSWTimerTimeout (msec : Z) (expired : bool)
  | EvRTTPrintf (code : rtt_code) (arg : Z)
  | EvManageEventError (code : error_code) (recoverable : bool) (arg : Z).

(** Computations over the world that log the calls they make. *)
Definition M (W A : Type) : Type := W → A * W * list event.

#[export] Instance M_ret {W} : MRet (M W) := λ A a w, (a, w, []).
#[export] Instance M_bind {W} : MBind (M W) := λ A B f m w,
  let '(a, w1, t1) := m w in
  let '(b, w2, t2) := f a w1 in
  (b, w2, t1 ++ t2).

Section Driver.
Context {W : Type} `{Platform W}.

Definition spi_init (line : spi_id) : M W unit :=
  λ w, (tt, SPIn_Init line w, [EvInit line]).
Definition cs_enable (line : spi_id) : M W unit :=
  λ w, (tt, SPI_CS_Enable line w, [EvCSEnable line]).
Definition cs_disable (line : spi_id) : M W unit :=
  λ w, (tt, SPI_CS_Disable line w, [EvCSDisable line]).
Definition transmit (line : spi_id) (data : list Z) : M W bool :=
  λ w, let '(ok, w') := SPI_Transmit line data w in
       (ok, w', [EvTransmit line data ok]).
Definition receive (line : spi_id) (buffer : list Z) (size : Z)
  : M W (bool * list Z) :=
  λ w, let '(ok, buffer', w') := SPI_Receive line buffer size w in
       ((ok, buffer'), w', [EvReceive line size ok buffer']).
Definition load_sw_timer : M W unit :=
  λ w, (tt, LoadSWTimer w, [EvLoadSWTimer]).
Definition sw_timer_timeout (msec : Z) : M W bool :=
  λ w, let '(expired, w') := SWTimerTimeout msec w in
       (expired, w', [EvSWTimerTimeout msec expired]).
Definition rtt_printf (code : rtt_code) (arg : Z) : M W unit :=
  λ w, (tt, RTT_Printf code arg w, [EvRTTPrintf code arg]).
Definition manage_event_error (code : error_code) (recoverable : bool)
  (arg : Z) : M W unit :=
  λ w, (tt, ManageEventError code recoverable arg w,
        [EvManageEventError code recoverable arg]).

(** The [size] bytes found at a [const void *buffer]. *)
Definition bytes_at (buffer : list Z) (size : Z) : list Z :=
  take (Z.to_nat size) buffer.

Definition IS25LP080D_Init : M W unit := spi_init IS25LP080D_SPI_LINE.

(** [assert_param] (stm32_assert.h) expands to nothing unless the firmware
    is built with full assertions; the asserted ranges [addr < 0x100000] and
    [size <= 0x100000] appear as hypotheses of the theorems that need them.
    The unused [context] argument is dropped.  The result pairs the returned
    [int] with the contents of [buffer]. *)
Definition IS25LP080D_Read (addr : Z) (buffer : list Z) (size : Z)
  : M W (Z * list Z) :=
  let cmd := cmd4 CMD_READ addr in
  cs_enable SPI1_ID;;
  ok ← transmit IS25LP080D_SPI_LINE cmd;
  if negb ok then
    cs_disable SPI1_ID;; mret (IS25LP080D_ERROR, buffer)
  else
    '(ok, buffer) ← receive IS25LP080D_SPI_LINE buffer size;
    if negb ok then
      cs_disable SPI1_ID;; mret (IS25LP080D_ERROR, buffer)
    else
      cs_disable SPI1_ID;; mret (0, buffer).

(** The [do ... while (status & 0x01)] loop.  [fuel] bounds the number of
    iterations; [None] means the loop is still running when it runs out. *)
Fixpoint wait_loop (fuel : nat) (memOpcode status : Z) : M W (option Z) :=
  match fuel with
  | O => mret None
  | S fuel' =>
    let cmd := CMD_READ_STATUS in
    expired ← sw_timer_timeout IS25LP080D_BUSY_TIMEOUT_MSEC;
    if (expired : bool) then
      rtt_printf RTT_EC_IS25LP080D_TIMEOUT memOpcode;;
      manage_event_error EC_IS25LP080D_TIMEOUT true memOpcode;;
      mret (Some IS25LP080D_ERROR)
    else
      cs_enable SPI1_ID;;
      ok ← transmit IS25LP080D_SPI_LINE [cmd];
      if negb ok then
        cs_disable SPI1_ID;; mret (Some IS25LP080D_ERROR)
      else
        '(ok, buf) ← receive IS25LP080D_SPI_LINE [status] 1;
        let status := hd status buf in
        if negb ok then
          cs_disable SPI1_ID;; mret (Some IS25LP080D_ERROR)
        else
          cs_disable SPI1_ID;;
          if negb (Z.land status 0x01 =? 0) then
            wait_loop fuel' memOpcode status
          else
            mret (Some 0)
  end.

Definition IS25LP080D_WaitWhileBusy (fuel : nat) (memOpcode : Z)
  : M W (option Z) :=
  let status := 0 in
  load_sw_timer;;
  wait_loop fuel memOpcode status.

Definition IS25LP080D_Program (fuel : nat) (addr : Z) (buffer : list Z)
  (size : Z) : M W (option Z) :=
  let cmd := cmd4 CMD_PAGE_PROGRAM addr in
  let wren := CMD_WRITE_ENABLE in
  cs_enable SPI1_ID;;
  ok ← transmit IS25LP080D_SPI_LINE [wren];
  if negb ok then
    cs_disable SPI1_ID;; mret (Some IS25LP080D_ERROR)
  else
    cs_disable SPI1_ID;;
    cs_enable SPI1_ID;;
    ok ← transmit IS25LP080D_SPI_LINE cmd;
    if negb ok then
      cs_disable SPI1_ID;; mret (Some IS25LP080D_ERROR)
    else
      ok ← transmit IS25LP080D_SPI_LINE (bytes_at buffer size);
      if negb ok then
        cs_disable SPI1_ID;; mret (Some IS25LP080D_ERROR)
      else
        cs_disable SPI1_ID;;
        IS25LP080D_WaitWhileBusy fuel CMD_PAGE_PROGRAM.

Definition IS25LP080D_Erase (fuel : nat) (addr size : Z) : M W (option Z) :=
  let cmd := cmd4 0 addr in
  let wren := CMD_WRITE_ENABLE in
  let selected :=
    if size =? 4096 then Some (<[0%nat := CMD_SECTOR_ERASE]> cmd)
    else if size =? 65536 then Some (<[0%nat := CMD_BLOCK_ERASE]> cmd)
    else None in
  match selected with
  | None => mret (Some IS25LP080D_ERROR)
  | Some cmd =>
    cs_enable SPI1_ID;;
    ok ← transmit IS25LP080D_SPI_LINE [wren];
    if negb ok then
      cs_disable SPI1_ID;; mret (Some IS25LP080D_ERROR)
    else
      cs_disable SPI1_ID;;
      cs_enable SPI1_ID;;
      ok ← transmit IS25LP080D_SPI_LINE cmd;
      if negb ok then
        cs_disable SPI1_ID;; mret (Some IS25LP080D_ERROR)
      else
        cs_disable SPI1_ID;;
        IS25LP080D_WaitWhileBusy fuel (hd 0 cmd)
  end.

Definition IS25LP080D_Sync : M W Z := mret 0.

End Driver.

End Flash.

(** ** Observations on traces *)

Module Trace.
Import Flash.

Definition result {W A} (x : A * W * list event) : A := x.1.1.
Definition world {W A} (x : A * W * list event) : W := x.1.2.
Definition trace {W A} (x : A * W * list event) : list event := x.2.

Definition is_enable (e : event) : bool :=
  match e with EvCSEnable _ => true | _ => false end.
Definition is_disable (e : event) : bool :=
  match e with EvCSDisable _ => true | _ => false end.
Definition is_rtt (e : event) : bool :=
  match e with EvRTTPrintf _ _ => true | _ => false end.
Definition is_manage (e : event) : bool :=
  match e with EvManageEventError _ _ _ => true | _ => false end.
Definition is_hook (e : event) : bool := is_rtt e || is_manage e.
Definition is_receive (e : event) : bool :=
  match e with EvReceive _ _ _ _ => true | _ => false end.
Definition is_transport (e : event) : bool :=
  match e with
  | EvInit _ | EvCSEnable _ | EvCSDisable _
  | EvTransmit _ _ _ | EvReceive _ _ _ _ => true
  | _ => false
  end.
Definition is_expired (e : event) : bool :=
  match e with EvSWTimerTimeout _ true => true | _ => false end.

Definition calls (p : event → bool) (tr : list event) : list event :=
  List.filter p tr.

(** The chip-select line followed along a trace: [None] as soon as the line
    is asserted twice, released while idle, or a transfer is made with the
    device not selected; otherwise the final state of the line. *)
Fixpoint cs_run (selected : bool) (tr : list event) : option bool :=
  match tr with
  | [] => Some selected
  | EvCSEnable _ :: tr' => if selected then None else cs_run true tr'
  | EvCSDisable _ :: tr' => if selected then cs_run false tr' else None
  | EvTransmit _ _ _ :: tr' | EvReceive _ _ _ _ :: tr' =>
    if selected then cs_run true tr' else None
  | _ :: tr' => cs_run selected tr'
  end.

(** Every assertion is followed by exactly one release, and the line is
    released at the end. *)
Definition cs_bracketed (tr : list event) : Prop :=
  cs_run false tr = Some false ∧
  length (calls is_enable tr) = length (calls is_disable tr).

(** The two diagnostic calls made on a timeout. *)
Definition timeout_hooks (op : Z) : list event :=
  [EvRTTPrintf RTT_EC_IS25LP080D_TIMEOUT op;
   EvManageEventError EC_IS25LP080D_TIMEOUT true op].

(** The calls one run of the busy-wait loop can make, iteration by
    iteration, with the value it returns ([None]: still polling).  [status]
    is the value of the local variable on entry. *)
Inductive wait_trace (op : Z) : Z → list event → option Z → Prop :=
  | wt_polling status :
    wait_trace op status [] None
  | wt_timeout status :
    wait_trace op status
      [EvSWTimerTimeout IS25LP080D_BUSY_TIMEOUT_MSEC true;
       EvRTTPrintf RTT_EC_IS25LP080D_TIMEOUT op;
       EvManageEventError EC_IS25LP080D_TIMEOUT true op]
      (Some IS25LP080D_ERROR)
  | wt_transmit_failed status :
    wait_trace op status
      [EvSWTimerTimeout IS25LP080D_BUSY_TIMEOUT_MSEC false;
       EvCSEnable SPI1_ID;
       EvTransmit IS25LP080D_SPI_LINE [CMD_READ_STATUS] false;
       EvCSDisable SPI1_ID]
      (Some IS25LP080D_ERROR)
  | wt_receive_failed status buf :
    wait_trace op status
      [EvSWTimerTimeout IS25LP080D_BUSY_TIMEOUT_MSEC false;
       EvCSEnable SPI1_ID;
       EvTransmit IS25LP080D_SPI_LINE [CMD_READ_STATUS] true;
       EvReceive IS25LP080D_SPI_LINE 1 false buf;
       EvCSDisable SPI1_ID]
      (Some IS25LP080D_ERROR)
  | wt_ready status buf :
    Z.land (hd status buf) 0x01 = 0 →
    wait_trace op status
      [EvSWTimerTimeout IS25LP080D_BUSY_TIMEOUT_MSEC false;
       EvCSEnable SPI1_ID;
       EvTransmit IS25LP080D_SPI_LINE [CMD_READ_STATUS] true;
       EvReceive IS25LP080D_SPI_LINE 1 true buf;
       EvCSDisable SPI1_ID]
      (Some 0)
  | wt_busy status buf tr r :
    Z.land (hd status buf) 0x01 ≠ 0 →
    wait_trace op (hd status buf) tr r →
    wait_trace op status
      ([EvSWTimerTimeout IS25LP080D_BUSY_TIMEOUT_MSEC false;
        EvCSEnable SPI1_ID;
        EvTransmit IS25LP080D_SPI_LINE [CMD_READ_STATUS] true;
        EvReceive IS25LP080D_SPI_LINE 1 true buf;
        EvCSDisable SPI1_ID] ++ tr)
      r.

End Trace.

(** ** A scripted transport stub

    The test double of the spec's testable properties: every transmit,
    receive and timer query answers with the next entry of its script.  An
    exhausted script answers success, leaves the buffer alone and reports the
    timer expired. *)

Module Stub.
Import Flash.

Record world : Type := {
  tx_script : list bool;
  rx_script : list (bool * list Z);
  timer_script : list bool
}.

#[export] Instance stub_platform : Platform world := {|
  SPIn_Init _ w := w;
  SPI_CS_Enable _ w := w;
  SPI_CS_Disable _ w := w;
  SPI_Transmit _ _ w :=
    (hd true (tx_script w),
     {| tx_script := tl (tx_script w); rx_script := rx_script w;
        timer_script := timer_script w |});
  SPI_Receive _ buffer _ w :=
    let '(ok, data) := hd (true, buffer) (rx_script w) in
    (ok, data,
     {| tx_script := tx_script w; rx_script := tl (rx_script w);
        timer_script := timer_script w |});
  LoadSWTimer w := w;
  SWTimerTimeout _ w :=
    (hd true (timer_script w),
     {| tx_script := tx_script w; rx_script := rx_script w;
        timer_script := tl (timer_script w) |});
  RTT_Printf _ _ w := w;
  ManageEventError _ _ _ w := w
|}.

(** The timer has already expired at the first query while the device would
    answer "ready" to a status read. *)
Definition expired_but_ready : world :=
  {| tx_script := []; rx_script := [(true, [0])]; timer_script := [true] |}.

(** The device stays busy for two polls and the timer expires at the third
    query. *)
Definition stuck_busy : world :=
  {| tx_script := []; rx_script := [(true, [1]); (true, [3])];
     timer_script := [false; false; true] |}.

(** The device is ready at the first poll. *)
Definition ready_at_once : world :=
  {| tx_script := []; rx_script := [(true, [0])]; timer_script := [false] |}.

End Stub.

(** ** A flash device behind the transport *)

Module Device.
Import Flash.

Definition CAPACITY : Z := 2 ^ 20.

(** Modelled from the spec: the serial flash part and the SPI transport in
    front of it (spi.h, swtimer.h) are not available.  This
    is the device of the round-trip property: a linear byte space of
    [CAPACITY] cells in which a program command stores its payload from the
    framed address on (no erase boundary interferes), a read command returns
    the cells from the framed address on, the status byte carries
    write-in-progress in bit 0, programming and erasing need the write-enable
    latch, and the transport never fails.  A command is shifted in while
    chip-select is asserted and takes effect when it is released.  The clock
    advances by one millisecond per status read. *)
Record flash : Type := {
  cells : gmap Z Z;
  wel : bool;
  busy : nat;
  t_busy : nat;
  shift_in : option (list Z);
  now : Z;
  timer : Z
}.

Definition read_cell (m : gmap Z Z) (a : Z) : Z :=
  default 0xFF (m !! (a mod CAPACITY)).

Definition read_cells (m : gmap Z Z) (a : Z) (n : nat) : list Z :=
  (λ i, read_cell m (a + i)) <$> seqZ 0 (Z.of_nat n).

Fixpoint write_cells (m : gmap Z Z) (a : Z) (bs : list Z) : gmap Z Z :=
  match bs with
  | [] => m
  | b :: bs' => write_cells (<[a mod CAPACITY := uint8 b]> m) (a + 1) bs'
  end.

Definition erase_cells (m : gmap Z Z) (a unit : Z) : gmap Z Z :=
  filter (λ kv, kv.1 / unit ≠ (a mod CAPACITY) / unit) m.

Definition status_byte (d : flash) : Z :=
  (if busy d is O then 0 else 1) + (if wel d then 2 else 0).

Definition select (d : flash) : flash :=
  {| cells := cells d; wel := wel d; busy := busy d; t_busy := t_busy d;
     shift_in := Some []; now := now d; timer := timer d |}.

Definition shift (data : list Z) (d : flash) : flash :=
  {| cells := cells d; wel := wel d; busy := busy d; t_busy := t_busy d;
     shift_in := (λ bs, bs ++ data) <$> shift_in d;
     now := now d; timer := timer d |}.

Definition idle (d : flash) : bool :=
  match busy d with O => true | _ => false end.

(** The effect of a complete command when chip-select is released. *)
Definition execute (d : flash) : flash :=
  let done c w b :=
    {| cells := c; wel := w; busy := b; t_busy := t_busy d;
       shift_in := None; now := now d; timer := timer d |} in
  match shift_in d with
  | Some (op :: args) =>
    if (op =? CMD_WRITE_ENABLE) && idle d then
      done (cells d) true (busy d)
    else if (op =? CMD_WRITE_DISABLE) && idle d then
      done (cells d) false (busy d)
    else if (op =? CMD_PAGE_PROGRAM) && idle d && wel d
            && (3 <=? Z.of_nat (length args)) then
      done (write_cells (cells d) (frame_addr (op :: args)) (drop 3 args))
           false (t_busy d)
    else if (op =? CMD_SECTOR_ERASE) && idle d && wel d
            && (3 <=? Z.of_nat (length args)) then
      done (erase_cells (cells d) (frame_addr (op :: args)) 4096)
           false (t_busy d)
    else if (op =? CMD_BLOCK_ERASE) && idle d && wel d
            && (3 <=? Z.of_nat (length args)) then
      done (erase_cells (cells d) (frame_addr (op :: args)) 65536)
           false (t_busy d)
    else done (cells d) (wel d) (busy d)
  | _ => done (cells d) (wel d) (busy d)
  end.

(** What the device shifts out for [size] bytes, and its state afterwards. *)
Definition shift_out (buffer : list Z) (size : Z) (d : flash)
  : list Z * flash :=
  let n := Z.to_nat size in
  match shift_in d with
  | Some (op :: args) =>
    if (op =? CMD_READ) && idle d && (Z.of_nat (length args) =? 3) then
      (read_cells (cells d) (frame_addr (op :: args)) n ++ drop n buffer, d)
    else if (op =? CMD_READ_STATUS) then
      (replicate n (status_byte d) ++ drop n buffer,
       {| cells := cells d; wel := wel d; busy := pred (busy d);
          t_busy := t_busy d; shift_in := shift_in d;
          now := now d + 1; timer := timer d |})
    else (replicate n 0xFF ++ drop n buffer, d)
  | _ => (replicate n 0xFF ++ drop n buffer, d)
  end.

#[export] Instance flash_platform : Platform flash := {|
  SPIn_Init _ d := d;
  SPI_CS_Enable _ d := select d;
  SPI_CS_Disable _ d := execute d;
  SPI_Transmit _ data d := (true, shift data d);
  SPI_Receive _ buffer size d :=
    let '(data, d') := shift_out buffer size d in (true, data, d');
  LoadSWTimer d :=
    {| cells := cells d; wel := wel d; busy := busy d; t_busy := t_busy d;
       shift_in := shift_in d; now := now d; timer := now d |};
  SWTimerTimeout msec d := (msec <=? now d - timer d, d);
  RTT_Printf _ _ d := d;
  ManageEventError _ _ _ d := d
|}.

(** A device at rest: deselected and not busy. *)
Definition at_rest (d : flash) : Prop := shift_in d = None ∧ busy d = O.

Definition erased : flash :=
  {| cells := ∅; wel := false; busy := 0; t_busy := 3; shift_in := None;
     now := 0; timer := 0 |}.

End Device.

(** ** littlefs.c: the pool of file structures *)

Module Pool.
Import Attr.

Definition CP23LFS_FILES_MAX : nat := 8.

(** *** Layout of [cp23lfs_fileStructure_t]

    Fields are placed in declaration order, each at the next multiple of its
    alignment, and the size of a structure is rounded up to its own
    alignment. *)

Definition align_up (n a : nat) : nat := ((n + a - 1) / a * a)%nat.

Definition sizeof_dId : nat := 2.
Definition sizeof_date : nat := CP23LFS_DATE_LEN.
Definition sizeof_time : nat := CP23LFS_TIME_LEN.
Definition sizeof_flags : nat := 1.
Definition sizeof_authorization : nat := 1.
Definition sizeof_owner : nat := CP23LFS_OWNER_LEN.
Definition sizeof_company : nat := CP23LFS_COMPANY_LEN.
Definition sizeof_size : nat := 4.
Definition sizeof_allocated : nat := 1.

Definition off_dId : nat := 0.
Definition off_date : nat := align_up (off_dId + sizeof_dId) 1.
Definition off_time : nat := align_up (off_date + sizeof_date) 1.
Definition off_flags : nat := align_up (off_time + sizeof_time) 1.
Definition off_authorization : nat := align_up (off_flags + sizeof_flags) 1.
Definition off_owner : nat :=
  align_up (off_authorization + sizeof_authorization) 1.
Definition off_company : nat := align_up (off_owner + sizeof_owner) 1.
Definition off_size : nat := align_up (off_company + sizeof_company) 4.
Definition off_system : nat := align_up (off_size + sizeof_size) 4.
Definition off_allocated : nat := off_system.

(** Modelled from the spec: [struct lfs_attr] and [struct lfs_file_config]
    come from lfs.h, which is not available.  A descriptor
    is the spec's triple of identifier, memory location and size
    ([type], [buffer], [size]); the configuration holds the scratch-buffer
    pointer, the pointer to the descriptor table and the descriptor count
    ([buffer], [attrs], [attr_count]).  Pointers and [lfs_size_t] take four
    bytes on the 32-bit target. *)
Definition sizeof_lfs_attr : nat := 12.
Definition attr_type : nat := 0.
Definition attr_buffer : nat := 4.
Definition attr_size : nat := 8.

Definition sizeof_lfs_file_config : nat := 12.
Definition cfg_buffer : nat := 0.
Definition cfg_attrs : nat := 4.
Definition cfg_attr_count : nat := 8.

(** A file structure is the list of its bytes; the pool is the array of the
    eight structures.  A [cp23lfs_file_t] is the index of the structure it
    points to, [None] standing for [NULL]; [slot_addr] below is the numeric
    value of that pointer. *)
Abbreviation record := (list Z).
Abbreviation pool := (list (list Z)).
Abbreviation cp23lfs_file_t := (option nat).

Section Layout.

(** [CP23LFS_CACHE_SIZE] (a macro defined in another header) and
    the size of the library's [lfs_file_t] are parameters of the layout;
    [pool_base] is the address of [cp23lsf_file]. *)
Variable CP23LFS_CACHE_SIZE : nat.
Variable sizeof_lfs_file_t : nat.
Variable pool_base : Z.

Definition off_buffer : nat := align_up (off_allocated + sizeof_allocated) 1.
Definition off_descr : nat := align_up (off_buffer + CP23LFS_CACHE_SIZE) 4.
Definition off_fileCfg : nat :=
  align_up (off_descr + CP23LFS_ATTR_NUM * sizeof_lfs_attr) 4.
Definition off_file : nat := align_up (off_fileCfg + sizeof_lfs_file_config) 4.
Definition sizeof_fileStructure : nat :=
  align_up (off_file + sizeof_lfs_file_t) 4.

(** *** Memory *)

Definition slot_addr (cnt : nat) : Z :=
  pool_base + Z.of_nat (cnt * sizeof_fileStructure).

Definition load8 (r : record) (off : nat) : Z := default 0 (r !! off).
Definition store8 (r : record) (off : nat) (v : Z) : record :=
  <[off := uint8 v]> r.
Definition load32 (r : record) (off : nat) : Z :=
  le_value32 (take 4 (drop off r)).
Definition store32 (r : record) (off : nat) (v : Z) : record :=
  list_inserts off (le_bytes32 (uint32 v)) r.

(** [bool] members are one byte, [false] is 0 and [true] is 1. *)
Definition allocated (r : record) : bool := negb (load8 r off_allocated =? 0).

(** [for (cnt = first; cnt < first + n; cnt++) body], for a body without
    [break]. *)
Fixpoint for_loop {St : Type} (n cnt : nat) (body : nat → St → St) (s : St)
  : St :=
  match n with
  | O => s
  | S n' => for_loop n' (S cnt) body (body cnt s)
  end.

(** The static tables of [CP23_GetFileStructure]. *)
Definition parOffset : list nat :=
  [off_dId; off_date; off_time; off_flags; off_authorization; off_owner;
   off_company].
Definition parSize : list nat :=
  [sizeof_dId; sizeof_date; sizeof_time; sizeof_flags; sizeof_authorization;
   sizeof_owner; sizeof_company].

(** The search loop: the first structure that is not allocated is marked
    (through the array and again through [retVal]) and the loop is left. *)
Fixpoint find_free (n cnt : nat) (p : pool) : pool * cp23lfs_file_t :=
  match n with
  | O => (p, None)
  | S n' =>
    if negb (allocated (p !!! cnt)) then
      let p := <[cnt := store8 (p !!! cnt) off_allocated 1]> p in
      let retVal := cnt in
      let p := <[retVal := store8 (p !!! retVal) off_allocated 1]> p in
      (p, Some retVal)
    else find_free n' (S cnt) p
  end.

(** "Clear the file structure": whole words first, then
    [sizeof % sizeof(uint32_t)] single bytes, both counted from the start of
    the structure. *)
Definition clear_structure (r : record) : record :=
  let r := for_loop (sizeof_fileStructure / 4) 0
             (λ cnt r, store32 r (4 * cnt) 0) r in
  for_loop (sizeof_fileStructure `mod` 4) 0 (λ cnt r, store8 r cnt 0) r.

(** "Init attributes description": the body of the loop, which fills
    [retVal->system.descr[cnt]], and the loop. *)
Definition init_descr_entry (retVal cnt : nat) (r : record) : record :=
  let r := store8 r (off_descr + cnt * sizeof_lfs_attr + attr_type)
             (Z.of_nat cnt) in
  let r := store32 r (off_descr + cnt * sizeof_lfs_attr + attr_buffer)
             (slot_addr retVal + Z.of_nat (parOffset !!! cnt)) in
  store32 r (off_descr + cnt * sizeof_lfs_attr + attr_size)
    (Z.of_nat (parSize !!! cnt)).

Definition init_descr (retVal : nat) (r : record) : record :=
  for_loop CP23LFS_ATTR_NUM 0 (init_descr_entry retVal) r.

(** "Init file configuration". *)
Definition init_fileCfg (retVal : nat) (r : record) : record :=
  let r := store32 r (off_fileCfg + cfg_attrs)
             (slot_addr retVal + Z.of_nat off_descr) in
  let r := store32 r (off_fileCfg + cfg_attr_count) (Z.of_nat CP23LFS_ATTR_NUM) in
  store32 r (off_fileCfg + cfg_buffer) (slot_addr retVal + Z.of_nat off_buffer).

Definition CP23_GetFileStructure (p : pool) : pool * cp23lfs_file_t :=
  let '(p, retVal) := find_free CP23LFS_FILES_MAX 0 p in
  match retVal with
  | Some h =>
    let r := clear_structure (p !!! h) in
    let r := init_descr h r in
    let r := init_fileCfg h r in
    (<[h := r]> p, Some h)
  | None => (p, None)
  end.

(** [assert_param(cp23lfs_file)] guards against [NULL]; as in the driver it
    is not part of the behaviour.  Releasing [NULL] is outside the contract
    and leaves the pool alone here. *)
Definition CP23_ReleaseFileStructure (cp23lfs_file : cp23lfs_file_t) (p : pool)
  : pool :=
  match cp23lfs_file with
  | Some h => <[h := store8 (p !!! h) off_allocated 0]> p
  | None => p
  end.

(** The pool at start-up: static storage is zero-initialised. *)
Definition fresh_pool : pool :=
  replicate CP23LFS_FILES_MAX (replicate sizeof_fileStructure 0).

(** Views of a structure used to state results. *)
Definition descr_type (r : record) (i : nat) : Z :=
  load8 r (off_descr + i * sizeof_lfs_attr + attr_type).
Definition descr_buffer (r : record) (i : nat) : Z :=
  load32 r (off_descr + i * sizeof_lfs_attr + attr_buffer).
Definition descr_size (r : record) (i : nat) : Z :=
  load32 r (off_descr + i * sizeof_lfs_attr + attr_size).

Definition well_formed (p : pool) : Prop :=
  length p = CP23LFS_FILES_MAX ∧
  Forall (λ r, length r = sizeof_fileStructure) p.

(** [n] successive calls, collecting the handles returned. *)
Fixpoint acquire_many (n : nat) (p : pool) : pool * list cp23lfs_file_t :=
  match n with
  | O => (p, [])
  | S n' =>
    let '(p, h) := CP23_GetFileStructure p in
    let '(p, hs) := acquire_many n' p in
    (p, h :: hs)
  end.

End Layout.

(** An example state for a layout with a 64-byte cache and an 84-byte file
    object (340-byte structures): slot 2 is in use and carries a data
    identifier in its first two bytes. *)
Definition pool_in_use : pool :=
  <[2%nat := store8 (store8 (store8 (replicate 340 0) 92 1) 0 0x34) 1 0x12]>
    (fresh_pool 64 84).

End Pool.

(** ** Further observations on traces *)

Module Observe.
Import Flash Trace.

Definition is_failed (e : event) : bool :=
  match e with
  | EvTransmit _ _ false | EvReceive _ _ false _ => true
  | _ => false
  end.
Definition is_query (e : event) : bool :=
  match e with EvSWTimerTimeout _ _ => true | _ => false end.
Definition is_transmit (e : event) : bool :=
  match e with EvTransmit _ _ _ => true | _ => false end.

(** The data of the transmit calls, in order. *)
Definition sent (tr : list event) : list (list Z) :=
  omap (λ e, match e with EvTransmit _ d _ => Some d | _ => None end) tr.

(** A failed transfer, if there is one, is followed by the release of
    chip-select and nothing else. *)
Fixpoint fail_fast (tr : list event) : bool :=
  match tr with
  | [] => true
  | e :: tr' =>
    if is_failed e then
      match tr' with [EvCSDisable _] => true | _ => false end
    else fail_fast tr'
  end.

End Observe.

(** ** Stub scenarios for the busy-wait *)

Module Scenario.
Import Flash Stub.

(** The device answers "busy" to [n] status reads and "ready" to the next
    one; the timer does not expire during these [n + 1] polls. *)
Definition busy_for (n : nat) : world :=
  {| tx_script := [];
     rx_script := replicate n (true, [0x01]) ++ [(true, [0x00])];
     timer_script := replicate (S n) false |}.

(** The device answers "busy" to every status read; the timer expires at its
    query number [k + 1]. *)
Definition busy_forever (k : nat) : world :=
  {| tx_script := []; rx_script := replicate k (true, [0x01]);
     timer_script := replicate k false |}.

End Scenario.

(** ** littlefs.h: error codes *)

Module ErrorCode.

Definition int32 (x : Z) : Z := (x + 2 ^ 31) mod 2 ^ 32 - 2 ^ 31.

(** [CP23LFS_ERRORCODE_OFFSET] is defined in another header; it is the
    parameter [offset].
    [CP23LFS_ERRORCODE(lfsec)] is
    [(cp23lfs_errorcode_t)(((int32_t)(OFFSET)) + ((int32_t)(lfsec)))]. *)
Definition CP23LFS_ERRORCODE (offset lfsec : Z) : Z :=
  uint32 (int32 offset + int32 lfsec).
Definition CP23LFS_OK (offset : Z) : Z := offset.

End ErrorCode.

(** ** Sequences of pool calls *)

Module PoolCalls.
Import Pool.

(** A call made by a user of the pool: an acquisition, whose handle the
    user keeps, or the release of the structure with index [h]. *)
Inductive call : Type :=
  | Acquire
  | Release (h : nat).

Definition valid_call (c : call) : Prop :=
  match c with
  | Acquire => True
  | Release h => (h < CP23LFS_FILES_MAX)%nat
  end.

Definition run_call (cache file_size : nat) (base : Z) (p : pool) (c : call)
  : pool :=
  match c with
  | Acquire => (CP23_GetFileStructure cache file_size base p).1
  | Release h => CP23_ReleaseFileStructure (Some h) p
  end.

Definition run_calls (cache file_size : nat) (base : Z) (cs : list call)
  (p : pool) : pool :=
  foldl (run_call cache file_size base) p cs.

(** An example state for the layout with 340-byte structures: every
    structure is marked allocated. *)
Definition full_pool : pool :=
  replicate CP23LFS_FILES_MAX (store8 (replicate 340 0) 92 1).

End PoolCalls.
(** * Properties of the pure helpers *)

Lemma land_3_mod (x : Z) : Z.land x 3 = x mod 4.
Proof. change 3 with (Z.ones 2). by rewrite Z.land_ones. Qed.

Lemma land_255_mod (x : Z) : Z.land x 255 = x mod 256.
Proof. change 255 with (Z.ones 8). by rewrite Z.land_ones. Qed.

(** C8: on the byte 0xF4 the four helpers give USER = 0, MNF = 1, BP = 3 and
    SYS = 3; in general each helper is the 2-bit field of its group, USER in
    bits 0-1, MNF in bits 2-3, BP in bits 4-5 and SYS in bits 6-7, so that
    the four fields together rebuild the byte. *)
Theorem auth_decode_fields :
  (Attr.LfsUserAuth 0xF4 = 0 ∧ Attr.LfsMNFAuth 0xF4 = 1 ∧
   Attr.LfsBPAuth 0xF4 = 3 ∧ Attr.LfsSysAuth 0xF4 = 3) ∧
  ∀ x : Z,
    (0 ≤ Attr.LfsUserAuth x < 4 ∧ 0 ≤ Attr.LfsMNFAuth x < 4 ∧
     0 ≤ Attr.LfsBPAuth x < 4 ∧ 0 ≤ Attr.LfsSysAuth x < 4) ∧
    (Z.testbit (Attr.LfsUserAuth x) 0 = Z.testbit x 0 ∧
     Z.testbit (Attr.LfsUserAuth x) 1 = Z.testbit x 1 ∧
     Z.testbit (Attr.LfsMNFAuth x) 0 = Z.testbit x 2 ∧
     Z.testbit (Attr.LfsMNFAuth x) 1 = Z.testbit x 3 ∧
     Z.testbit (Attr.LfsBPAuth x) 0 = Z.testbit x 4 ∧
     Z.testbit (Attr.LfsBPAuth x) 1 = Z.testbit x 5 ∧
     Z.testbit (Attr.LfsSysAuth x) 0 = Z.testbit x 6 ∧
     Z.testbit (Attr.LfsSysAuth x) 1 = Z.testbit x 7) ∧
    uint8 x = Attr.LfsUserAuth x + 4 * Attr.LfsMNFAuth x +
              16 * Attr.LfsBPAuth x + 64 * Attr.LfsSysAuth x.
Proof.
  split; [by vm_compute|].
  intros x. unfold Attr.LfsUserAuth, Attr.LfsMNFAuth, Attr.LfsBPAuth,
    Attr.LfsSysAuth, uint8.
  split; [|split].
  - rewrite !land_3_mod. repeat split; apply Z.mod_pos_bound; lia.
  - rewrite !Z.land_spec, !Z.shiftr_spec by lia. simpl.
    rewrite !andb_true_r. done.
  - rewrite !land_3_mod, !Z.shiftr_div_pow2 by lia.
    change (2 ^ 2) with 4. change (2 ^ 4) with 16. change (2 ^ 6) with 64.
    Z.div_mod_to_equations. lia.
Qed.
(** * The flash driver *)

Module DriverProofs.
Import Flash Trace.

Lemma cs_run_app (s : bool) (a b : list event) :
  cs_run s (a ++ b) = cs_run s a ≫= λ s', cs_run s' b.
Proof.
  revert s. induction a as [|e a IH]; intros s; [done|].
  destruct e, s; simpl; auto.
Qed.

Lemma calls_app p (a b : list event) :
  calls p (a ++ b) = calls p a ++ calls p b.
Proof. apply List.filter_app. Qed.

Ltac unfold_m :=
  unfold mbind, M_bind, mret, M_ret, spi_init, cs_enable, cs_disable,
    transmit, receive, load_sw_timer, sw_timer_timeout, rtt_printf,
    manage_event_error in *.

Ltac call_step :=
  match goal with
  | |- context [SPI_Transmit ?l ?d ?w] =>
    let E := fresh "Etx" in
    destruct (SPI_Transmit l d w) as [[] ?] eqn:E
  | |- context [SPI_Receive ?l ?b ?n ?w] =>
    let E := fresh "Erx" in
    destruct (SPI_Receive l b n w) as [[[] ?] ?] eqn:E
  | |- context [SWTimerTimeout ?m ?w] =>
    let E := fresh "Etm" in
    destruct (SWTimerTimeout m w) as [[] ?] eqn:E
  end; simpl.

(** ** Facts about the shape of a busy-wait trace *)

Lemma wait_trace_cs op status tr r :
  wait_trace op status tr r →
  cs_run false tr = Some false ∧
  length (calls is_enable tr) = length (calls is_disable tr).
Proof.
  induction 1 as [| | | | |status buf tr r Hb Hw [IH1 IH2]]; try done.
  split; [exact IH1|]. simpl. by rewrite IH2.
Qed.

Lemma wait_trace_hooks op status tr r :
  wait_trace op status tr r →
  if existsb is_expired tr then
    r = Some IS25LP080D_ERROR ∧
    calls is_hook tr =
      [EvRTTPrintf RTT_EC_IS25LP080D_TIMEOUT op;
       EvManageEventError EC_IS25LP080D_TIMEOUT true op] ∧
    ∃ pre, tr = pre ++
      [EvSWTimerTimeout IS25LP080D_BUSY_TIMEOUT_MSEC true;
       EvRTTPrintf RTT_EC_IS25LP080D_TIMEOUT op;
       EvManageEventError EC_IS25LP080D_TIMEOUT true op]
  else calls is_hook tr = [].
Proof.
  induction 1 as [| | | | |status buf tr r Hb Hw IH]; try done.
  - simpl. split_and!; [done..|]. by exists [].
  - simpl. destruct (existsb is_expired tr); [|done].
    destruct IH as (-> & -> & pre & ->). split_and!; [done..|].
    eexists (_ :: _ :: _ :: _ :: _ :: pre). done.
Qed.

Lemma wait_trace_success op status tr :
  wait_trace op status tr (Some 0) → existsb is_expired tr = false.
Proof.
  intros Hw. remember (Some 0) as r eqn:Hr.
  induction Hw; try done. simpl. auto.
Qed.

Section Generic.
Context {W : Type} `{Platform W}.

Lemma wait_loop_shape (fuel : nat) (op status : Z) (w : W) :
  wait_trace op status (trace (wait_loop fuel op status w))
             (result (wait_loop fuel op status w)).
Proof.
  revert status w. induction fuel as [|fuel IH]; intros status w.
  { constructor. }
  simpl. unfold_m. repeat call_step; try by constructor.
  destruct (Z.land (hd status l) 1 =? 0) eqn:Hbit; simpl.
  - apply wt_ready. lia.
  - specialize (IH (hd status l) (SPI_CS_Disable SPI1_ID w2)).
    destruct (wait_loop fuel op _ _) as [[r w'] t]. simpl in *.
    apply (wt_busy op status l t r); [lia|done].
Qed.

Lemma wait_while_busy_shape (fuel : nat) (op : Z) (w : W) :
  ∃ tr, trace (IS25LP080D_WaitWhileBusy fuel op w) = EvLoadSWTimer :: tr ∧
        wait_trace op 0 tr (result (IS25LP080D_WaitWhileBusy fuel op w)).
Proof.
  unfold IS25LP080D_WaitWhileBusy. unfold_m.
  pose proof (wait_loop_shape fuel op 0 (LoadSWTimer w)) as Hs.
  destruct (wait_loop fuel op 0 _) as [[r w'] t]. simpl in *. eauto.
Qed.

(** C4: whatever the transport answers and however long the loop runs,
    the calls made by read, program, erase and the busy-wait poll assert and
    release chip-select in strict alternation, transfer only while it is
    asserted, and leave it released at the end: on no exit path does an
    operation return with the device still selected. *)
Theorem chip_select_always_released (w : W) (fuel : nat) (addr size op : Z)
  (buffer : list Z) :
  cs_bracketed (trace (IS25LP080D_Read addr buffer size w)) ∧
  cs_bracketed (trace (IS25LP080D_Program fuel addr buffer size w)) ∧
  cs_bracketed (trace (IS25LP080D_Erase fuel addr size w)) ∧
  cs_bracketed (trace (IS25LP080D_WaitWhileBusy fuel op w)).
Proof.
  assert (Hwait : ∀ op w,
    cs_bracketed (trace (IS25LP080D_WaitWhileBusy fuel op w))).
  { intros op' w'. destruct (wait_while_busy_shape fuel op' w') as (tr & -> & Hs).
    apply wait_trace_cs in Hs. exact Hs. }
  split_and!.
  - unfold IS25LP080D_Read. unfold_m. repeat call_step; by split.
  - unfold IS25LP080D_Program. unfold_m. repeat call_step; try by split.
    specialize (Hwait CMD_PAGE_PROGRAM (SPI_CS_Disable SPI1_ID w2)).
    destruct (IS25LP080D_WaitWhileBusy _ _ _) as [[r w'] t]. simpl in *.
    destruct Hwait as [Hrun Hlen]. split; simpl; [done|by rewrite Hlen].
  - unfold IS25LP080D_Erase.
    destruct (size =? 4096); [|destruct (size =? 65536)]; [| |by split].
    all: unfold_m; repeat call_step; try by split.
    all: match goal with |- context [IS25LP080D_WaitWhileBusy ?f ?o ?x] =>
           specialize (Hwait o x);
           destruct (IS25LP080D_WaitWhileBusy f o x) as [[r w'] t] end.
    all: simpl in *; destruct Hwait as [Hrun Hlen].
    all: split; simpl; [done|by rewrite Hlen].
  - apply Hwait.
Qed.

Lemma wait_while_busy_hooks (w : W) (fuel : nat) (op : Z) :
  let run := IS25LP080D_WaitWhileBusy fuel op w in
  calls is_hook (trace run) =
    (if existsb is_expired (trace run) then timeout_hooks op else []) ∧
  (existsb is_expired (trace run) = true →
   result run = Some IS25LP080D_ERROR).
Proof.
  intros run. subst run.
  destruct (wait_while_busy_shape fuel op w) as (tr & -> & Hs).
  apply wait_trace_hooks in Hs. simpl.
  destruct (existsb is_expired tr); [|done].
  destruct Hs as (-> & -> & _). done.
Qed.

Lemma calls_hook_nil (pre : list event) :
  calls is_hook pre = [] → calls is_rtt pre = [] ∧ calls is_manage pre = [].
Proof.
  induction pre as [|[] pre IH]; simpl; intros Hpre; simplify_eq; auto.
Qed.

Lemma program_hooks (w : W) (fuel : nat) (addr : Z) (buffer : list Z)
  (size : Z) :
  let prog := IS25LP080D_Program fuel addr buffer size w in
  calls is_hook (trace prog) =
    (if existsb is_expired (trace prog)
     then [EvRTTPrintf RTT_EC_IS25LP080D_TIMEOUT CMD_PAGE_PROGRAM;
           EvManageEventError EC_IS25LP080D_TIMEOUT true CMD_PAGE_PROGRAM]
     else []) ∧
  (existsb is_expired (trace prog) = true →
   result prog = Some IS25LP080D_ERROR) ∧
  (result prog = Some 0 → existsb is_expired (trace prog) = false).
Proof.
  cbv zeta. unfold IS25LP080D_Program. unfold_m.
  repeat call_step; try done.
  pose proof (wait_while_busy_hooks (SPI_CS_Disable SPI1_ID w2) fuel
                CMD_PAGE_PROGRAM) as [Hhooks Hexp].
  destruct (wait_while_busy_shape fuel CMD_PAGE_PROGRAM
              (SPI_CS_Disable SPI1_ID w2)) as (tr' & Htr & Hs').
  destruct (IS25LP080D_WaitWhileBusy _ _ _) as [[r w'] t].
  simpl in *. split_and!; [done|done|].
  intros Hr. cbn in Hr. subst r t. simpl. by apply wait_trace_success in Hs'.
Qed.

(** C6: if the timer reports the timeout during the busy-wait, the
    diagnostic emitter and the error manager are each called exactly once,
    in that order and as the last two calls, both with the opcode of the
    operation and the error manager with its recoverable flag set, and the
    busy-wait returns the error code; if the timer never reports the timeout,
    and in particular when the busy-wait succeeds, neither is called.  For
    program the opcode reported is the page-program opcode. *)
Theorem timeout_reported_once (w : W) (fuel : nat) (op : Z) :
  let run := IS25LP080D_WaitWhileBusy fuel op w in
  (existsb is_expired (trace run) = true →
   result run = Some IS25LP080D_ERROR ∧
   calls is_rtt (trace run) = [EvRTTPrintf RTT_EC_IS25LP080D_TIMEOUT op] ∧
   calls is_manage (trace run) =
     [EvManageEventError EC_IS25LP080D_TIMEOUT true op] ∧
   ∃ pre, trace run = pre ++
     [EvSWTimerTimeout IS25LP080D_BUSY_TIMEOUT_MSEC true;
      EvRTTPrintf RTT_EC_IS25LP080D_TIMEOUT op;
      EvManageEventError EC_IS25LP080D_TIMEOUT true op] ∧
     calls is_hook pre = []) ∧
  (existsb is_expired (trace run) = false → calls is_hook (trace run) = []) ∧
  (result run = Some 0 → calls is_hook (trace run) = []) ∧
  (∀ addr buffer size,
     let prog := IS25LP080D_Program fuel addr buffer size w in
     calls is_hook (trace prog) =
       (if existsb is_expired (trace prog)
        then [EvRTTPrintf RTT_EC_IS25LP080D_TIMEOUT CMD_PAGE_PROGRAM;
              EvManageEventError EC_IS25LP080D_TIMEOUT true CMD_PAGE_PROGRAM]
        else []) ∧
     (existsb is_expired (trace prog) = true →
      result prog = Some IS25LP080D_ERROR) ∧
     (result prog = Some 0 → existsb is_expired (trace prog) = false)).
Proof.
  intros run. subst run.
  destruct (wait_while_busy_shape fuel op w) as (tr & -> & Hs).
  pose proof (wait_trace_hooks _ _ _ _ Hs) as Hh. simpl.
  split_and!.
  - intros Hx. rewrite Hx in Hh. destruct Hh as (Hr & Hc & pre & ->).
    rewrite calls_app in Hc. simpl in Hc.
    assert (calls is_hook pre = []) as Hpre.
    { destruct (calls is_hook pre) as [|? [|? [|? ?]]]; simplify_eq/=; done. }
    destruct (calls_hook_nil pre Hpre) as [Hrtt Hman].
    split_and!; [done| | |].
    + rewrite calls_app, Hrtt. done.
    + rewrite calls_app, Hman. done.
    + exists (EvLoadSWTimer :: pre). done.
  - intros Hx. by rewrite Hx in Hh.
  - intros Hr. rewrite Hr in Hs. apply wait_trace_success in Hs.
    by rewrite Hs in Hh.
  - apply program_hooks.
Qed.

(** C5 as the code has it: every iteration of the busy-wait queries the
    timer first and reads the status only if the timeout has not elapsed.
    When the first timer query reports no timeout and the first status read
    succeeds with bit 0 clear, the busy-wait returns success after that
    single read; when the first timer query reports the timeout, it returns
    the error code without reading the status at all. *)
Theorem busy_wait_checks_timer_first (w : W) (fuel : nat) (op : Z) :
  (∃ tr, trace (IS25LP080D_WaitWhileBusy fuel op w) = EvLoadSWTimer :: tr ∧
         wait_trace op 0 tr (result (IS25LP080D_WaitWhileBusy fuel op w))) ∧
  (∀ w1 w2 w3 buf,
     SWTimerTimeout IS25LP080D_BUSY_TIMEOUT_MSEC (LoadSWTimer w) = (false, w1) →
     SPI_Transmit IS25LP080D_SPI_LINE [CMD_READ_STATUS]
       (SPI_CS_Enable SPI1_ID w1) = (true, w2) →
     SPI_Receive IS25LP080D_SPI_LINE [0] 1 w2 = (true, buf, w3) →
     Z.land (hd 0 buf) 0x01 = 0 →
     IS25LP080D_WaitWhileBusy (S fuel) op w =
       (Some 0, SPI_CS_Disable SPI1_ID w3,
        [EvLoadSWTimer;
         EvSWTimerTimeout IS25LP080D_BUSY_TIMEOUT_MSEC false;
         EvCSEnable SPI1_ID;
         EvTransmit IS25LP080D_SPI_LINE [CMD_READ_STATUS] true;
         EvReceive IS25LP080D_SPI_LINE 1 true buf;
         EvCSDisable SPI1_ID])) ∧
  (∀ w1,
     SWTimerTimeout IS25LP080D_BUSY_TIMEOUT_MSEC (LoadSWTimer w) = (true, w1) →
     IS25LP080D_WaitWhileBusy (S fuel) op w =
       (Some IS25LP080D_ERROR,
        ManageEventError EC_IS25LP080D_TIMEOUT true op
          (RTT_Printf RTT_EC_IS25LP080D_TIMEOUT op w1),
        [EvLoadSWTimer;
         EvSWTimerTimeout IS25LP080D_BUSY_TIMEOUT_MSEC true;
         EvRTTPrintf RTT_EC_IS25LP080D_TIMEOUT op;
         EvManageEventError EC_IS25LP080D_TIMEOUT true op])).
Proof.
  split_and!.
  - apply wait_while_busy_shape.
  - intros w1 w2 w3 buf Htm Htx Hrx Hbit.
    unfold IS25LP080D_WaitWhileBusy. simpl. unfold_m.
    rewrite Htm. simpl. rewrite Htx. simpl. rewrite Hrx. simpl.
    rewrite Hbit. done.
  - intros w1 Htm.
    unfold IS25LP080D_WaitWhileBusy. simpl. unfold_m.
    rewrite Htm. done.
Qed.

(** C3: for every address and every size other than 4096 and 65536, erase
    returns the error code at once, without a single call to the transport
    (or to any other service) and with the world unchanged.  For size 4096
    the command frame sent after the write-enable starts with the
    sector-erase opcode 0x20, for size 65536 with the block-erase opcode
    0xD8, followed by the three address bytes; the same opcode is the one
    reported if the busy-wait times out. *)
Theorem erase_size_dispatch (w : W) (fuel : nat) (addr size : Z) :
  (size ≠ 4096 → size ≠ 65536 →
   IS25LP080D_Erase fuel addr size w = (Some IS25LP080D_ERROR, w, [])) ∧
  (∀ opcode w1,
     (size = 4096 ∧ opcode = 0x20) ∨ (size = 65536 ∧ opcode = 0xD8) →
     SPI_Transmit IS25LP080D_SPI_LINE [CMD_WRITE_ENABLE]
       (SPI_CS_Enable SPI1_ID w) = (true, w1) →
     ∃ ok rest,
       trace (IS25LP080D_Erase fuel addr size w) =
         [EvCSEnable SPI1_ID;
          EvTransmit IS25LP080D_SPI_LINE [CMD_WRITE_ENABLE] true;
          EvCSDisable SPI1_ID;
          EvCSEnable SPI1_ID;
          EvTransmit IS25LP080D_SPI_LINE (opcode :: tail (cmd4 0 addr)) ok]
         ++ rest ∧
       (calls is_hook rest = [] ∨
        calls is_hook rest =
          [EvRTTPrintf RTT_EC_IS25LP080D_TIMEOUT opcode;
           EvManageEventError EC_IS25LP080D_TIMEOUT true opcode])).
Proof.
  split.
  - intros H1 H2. unfold IS25LP080D_Erase.
    destruct (Z.eqb_spec size 4096); [done|].
    destruct (Z.eqb_spec size 65536); [done|]. done.
  - intros opcode w1 Hsz Htx. unfold IS25LP080D_Erase.
    assert ((if size =? 4096
             then Some (<[0%nat:=CMD_SECTOR_ERASE]> (cmd4 0 addr))
             else if size =? 65536
                  then Some (<[0%nat:=CMD_BLOCK_ERASE]> (cmd4 0 addr))
                  else None) = Some (opcode :: tail (cmd4 0 addr))) as ->.
    { destruct Hsz as [[-> ->]|[-> ->]]; done. }
    unfold_m. rewrite Htx. simpl. call_step.
    + pose proof (wait_while_busy_shape fuel opcode
                    (SPI_CS_Disable SPI1_ID w0)) as (tr & Htr & Hs).
      apply wait_trace_hooks in Hs.
      destruct (IS25LP080D_WaitWhileBusy _ _ _) as [[r w'] t].
      simpl in *. subst t. eexists true, _. split; [done|]. simpl.
      destruct (existsb is_expired tr); [right|left]; tauto.
    + eexists false, _. split; [done|]. by left.
Qed.

End Generic.

(** ** The command frame *)

Lemma split32_b_T0 (x : Z) : 0 ≤ x < 2 ^ 32 → split32_b x SPLIT_T0 = Z.land x 0xFF.
Proof.
  intros Hx. unfold split32_b, uint32. rewrite Z.mod_small by done.
  simpl. by rewrite land_255_mod.
Qed.

Lemma split32_b_T1 (x : Z) :
  0 ≤ x < 2 ^ 32 → split32_b x SPLIT_T1 = Z.land (Z.shiftr x 8) 0xFF.
Proof.
  intros Hx. unfold split32_b, uint32. rewrite Z.mod_small by done.
  simpl. by rewrite land_255_mod, Z.shiftr_div_pow2.
Qed.

Lemma split32_b_T2 (x : Z) :
  0 ≤ x < 2 ^ 32 → split32_b x SPLIT_T2 = Z.land (Z.shiftr x 16) 0xFF.
Proof.
  intros Hx. unfold split32_b, uint32. rewrite Z.mod_small by done.
  simpl. by rewrite land_255_mod, Z.shiftr_div_pow2.
Qed.

Lemma frame_addr_cmd4 (opcode addr : Z) :
  0 ≤ addr < 2 ^ 24 → frame_addr (cmd4 opcode addr) = addr.
Proof.
  intros Ha. unfold frame_addr, cmd4, split32_b, uint32.
  rewrite Z.mod_small by lia. simpl.
  Z.div_mod_to_equations. lia.
Qed.

Lemma cmd4_bytes (opcode addr : Z) :
  0 ≤ opcode < 256 → 0 ≤ addr < 2 ^ 32 →
  cmd4 opcode addr =
    [opcode; Z.land (Z.shiftr addr 16) 0xFF; Z.land (Z.shiftr addr 8) 0xFF;
     Z.land addr 0xFF].
Proof.
  intros Hop Ha. unfold cmd4, uint8.
  rewrite split32_b_T0, split32_b_T1, split32_b_T2 by lia.
  by rewrite Z.mod_small.
Qed.

(** C9: for an opcode byte and an address below 2^20 the framed command is
    the four bytes opcode, address bits 23..16, bits 15..8, bits 7..0, most
    significant address byte first; the three address bytes read as a
    big-endian number give the address back, equal inputs give equal frames,
    and this frame is what read and program hand to the transport. *)
Theorem command_frame (opcode addr : Z) :
  0 ≤ opcode < 256 → 0 ≤ addr < 2 ^ 20 →
  cmd4 opcode addr =
    [opcode; Z.land (Z.shiftr addr 16) 0xFF; Z.land (Z.shiftr addr 8) 0xFF;
     Z.land addr 0xFF] ∧
  length (cmd4 opcode addr) = 4%nat ∧
  frame_addr (cmd4 opcode addr) = addr ∧
  (∀ opcode' addr',
     opcode' = opcode → addr' = addr → cmd4 opcode' addr' = cmd4 opcode addr) ∧
  (∀ W (P : Platform W) (w : W) buffer size,
     ∃ ok rest,
       trace (IS25LP080D_Read addr buffer size w) =
         EvCSEnable SPI1_ID ::
         EvTransmit IS25LP080D_SPI_LINE
           [CMD_READ; Z.land (Z.shiftr addr 16) 0xFF;
            Z.land (Z.shiftr addr 8) 0xFF; Z.land addr 0xFF] ok :: rest) ∧
  (∀ W (P : Platform W) (w w1 : W) fuel buffer size,
     SPI_Transmit IS25LP080D_SPI_LINE [CMD_WRITE_ENABLE]
       (SPI_CS_Enable SPI1_ID w) = (true, w1) →
     ∃ ok rest,
       trace (IS25LP080D_Program fuel addr buffer size w) =
         [EvCSEnable SPI1_ID;
          EvTransmit IS25LP080D_SPI_LINE [CMD_WRITE_ENABLE] true;
          EvCSDisable SPI1_ID;
          EvCSEnable SPI1_ID;
          EvTransmit IS25LP080D_SPI_LINE
            [CMD_PAGE_PROGRAM; Z.land (Z.shiftr addr 16) 0xFF;
             Z.land (Z.shiftr addr 8) 0xFF; Z.land addr 0xFF] ok] ++ rest).
Proof.
  intros Hop Ha.
  assert (Hframe : ∀ op, 0 ≤ op < 256 → cmd4 op addr =
    [op; Z.land (Z.shiftr addr 16) 0xFF; Z.land (Z.shiftr addr 8) 0xFF;
     Z.land addr 0xFF]).
  { intros op Hop'. apply cmd4_bytes; lia. }
  split_and!.
  - by apply Hframe.
  - done.
  - apply frame_addr_cmd4. lia.
  - by intros ? ? -> ->.
  - intros W P w buffer size. unfold IS25LP080D_Read.
    rewrite (Hframe CMD_READ) by done. unfold_m.
    repeat call_step; by eexists _, _.
  - intros W P w w1 fuel buffer size Htx. unfold IS25LP080D_Program.
    rewrite (Hframe CMD_PAGE_PROGRAM) by done. unfold_m.
    rewrite Htx. simpl. call_step; [|by eexists _, _].
    call_step; [|by eexists _, _].
    destruct (IS25LP080D_WaitWhileBusy _ _ _) as [[r w'] t].
    by eexists _, _.
Qed.

End DriverProofs.
(** * The pool of file structures *)

Module PoolProofs.
Import Attr Pool.
Local Open Scope nat_scope.

Lemma align_up_4 (n : nat) :
  n ≤ align_up n 4 ∧ align_up n 4 < n + 4 ∧ align_up n 4 `mod` 4 = 0.
Proof.
  unfold align_up. replace (n + 4 - 1) with (n + 3) by lia.
  pose proof (Nat.div_mod_eq (n + 3) 4) as Hd.
  pose proof (Nat.mod_upper_bound (n + 3) 4 ltac:(lia)) as Hm.
  split_and!; [lia..|]. apply Nat.Div0.mod_mul.
Qed.

Lemma align_up_4_id (n : nat) : n `mod` 4 = 0 → align_up n 4 = n.
Proof.
  intros Hn. unfold align_up.
  pose proof (Nat.div_mod_eq n 4) as Hd. rewrite Hn, Nat.add_0_r in Hd.
  generalize dependent (n / 4). intros q Hd. subst n. clear Hn.
  replace (4 * q + 4 - 1) with (3 + q * 4) by lia.
  rewrite Nat.div_add by lia. change (3 / 4) with 0. lia.
Qed.

Lemma mod_4_add (a b : nat) : a `mod` 4 = 0 → b `mod` 4 = 0 → (a + b) `mod` 4 = 0.
Proof. intros Ha Hb. by rewrite Nat.Div0.add_mod, Ha, Hb. Qed.

(** ** Byte-level stores and loads *)

Lemma le_value32_bytes (x : Z) :
  (0 ≤ x < 2 ^ 32)%Z → le_value32 (le_bytes32 x) = x.
Proof. intros Hx. unfold le_value32, le_bytes32. Z.div_mod_to_equations. lia. Qed.

Lemma uint32_small (x : Z) : (0 ≤ x < 2 ^ 32)%Z → uint32 x = x.
Proof. intros Hx. unfold uint32. by rewrite Z.mod_small. Qed.

Lemma length_store8 (r : record) off v : length (store8 r off v) = length r.
Proof. apply length_insert. Qed.

Lemma length_store32 (r : record) off v : length (store32 r off v) = length r.
Proof. apply length_inserts. Qed.

Lemma lookup_store8_eq (r : record) off v :
  off < length r → store8 r off v !! off = Some (uint8 v).
Proof. apply list_lookup_insert_eq. Qed.

Lemma lookup_store8_ne (r : record) off v i :
  i ≠ off → store8 r off v !! i = r !! i.
Proof. intros Hi. by apply list_lookup_insert_ne. Qed.

Lemma lookup_store32_in (r : record) off v k :
  k < 4 → off + 4 ≤ length r →
  store32 r off v !! (off + k) = le_bytes32 (uint32 v) !! k.
Proof.
  intros Hk Hlen. unfold store32.
  rewrite list_lookup_inserts by (simpl; lia). f_equal. lia.
Qed.

Lemma lookup_store32_out (r : record) off v i :
  i < off ∨ off + 4 ≤ i → store32 r off v !! i = r !! i.
Proof.
  intros [Hi|Hi]; unfold store32.
  - by apply list_lookup_inserts_lt.
  - by apply list_lookup_inserts_ge.
Qed.

Lemma load8_lookup (r : record) off b : r !! off = Some b → load8 r off = b.
Proof. unfold load8. by intros ->. Qed.

Lemma load32_ext (r1 r2 : record) off :
  (∀ k, k < 4 → r1 !! (off + k) = r2 !! (off + k)) →
  load32 r1 off = load32 r2 off.
Proof.
  intros Hk. unfold load32. f_equal. apply list_eq. intros i.
  destruct (decide (i < 4)) as [Hi|Hi].
  - rewrite !lookup_take_lt, !lookup_drop by done. by apply Hk.
  - by rewrite !lookup_take_ge by lia.
Qed.

Lemma load32_store32_eq (r : record) off v :
  off + 4 ≤ length r → load32 (store32 r off v) off = uint32 v.
Proof.
  intros Hlen. unfold load32.
  assert (take 4 (drop off (store32 r off v)) = le_bytes32 (uint32 v)) as ->.
  { apply list_eq. intros i. destruct (decide (i < 4)) as [Hi|Hi].
    - rewrite lookup_take_lt, lookup_drop by done.
      by apply lookup_store32_in.
    - rewrite lookup_take_ge by lia. symmetry. apply lookup_ge_None. simpl. lia. }
  apply le_value32_bytes. unfold uint32. apply Z.mod_pos_bound. lia.
Qed.

Lemma load32_store32_ne (r : record) off v off' :
  off' + 4 ≤ off ∨ off + 4 ≤ off' →
  load32 (store32 r off v) off' = load32 r off'.
Proof. intros Hd. apply load32_ext. intros k Hk. apply lookup_store32_out. lia. Qed.

Lemma load32_store8_ne (r : record) off v off' :
  off < off' ∨ off' + 4 ≤ off →
  load32 (store8 r off v) off' = load32 r off'.
Proof. intros Hd. apply load32_ext. intros k Hk. apply lookup_store8_ne. lia. Qed.

Lemma load8_store8_eq (r : record) off v :
  off < length r → load8 (store8 r off v) off = uint8 v.
Proof. intros Hlen. apply load8_lookup. by apply lookup_store8_eq. Qed.

Lemma load8_ext (r1 r2 : record) off :
  r1 !! off = r2 !! off → load8 r1 off = load8 r2 off.
Proof. unfold load8. by intros ->. Qed.

(** ** The clearing loops *)

Lemma clear_words_lookup (n c : nat) (r : record) (i : nat) :
  4 * (c + n) ≤ length r →
  for_loop n c (λ cnt r, store32 r (4 * cnt) 0) r !! i =
    if decide (4 * c ≤ i < 4 * (c + n)) then Some 0%Z else r !! i.
Proof.
  revert c r. induction n as [|n IH]; intros c r Hlen; simpl.
  { case_decide; [lia|done]. }
  rewrite IH by (rewrite length_store32; lia).
  repeat case_decide; try lia; try done.
  - destruct (decide (i < 4 * c + 4)) as [Hi|Hi]; [|lia].
    replace i with (4 * c + (i - 4 * c)) by lia.
    rewrite lookup_store32_in by lia.
    assert (i - 4 * c < 4) as Hk by lia.
    destruct (i - 4 * c) as [|[|[|[|?]]]]; try lia; done.
  - apply lookup_store32_out. lia.
Qed.

Section Layout.
Variable CP23LFS_CACHE_SIZE : nat.
Variable sizeof_lfs_file_t : nat.
Variable pool_base : Z.

Abbreviation off_descr := (off_descr CP23LFS_CACHE_SIZE).
Abbreviation off_fileCfg := (off_fileCfg CP23LFS_CACHE_SIZE).
Abbreviation off_file := (off_file CP23LFS_CACHE_SIZE).
Abbreviation SIZE := (sizeof_fileStructure CP23LFS_CACHE_SIZE sizeof_lfs_file_t).

Lemma layout_facts :
  off_allocated = 92 ∧ off_buffer = 93 ∧
  93 + CP23LFS_CACHE_SIZE ≤ off_descr ∧ off_descr `mod` 4 = 0 ∧
  off_fileCfg = off_descr + 84 ∧ off_file = off_descr + 96 ∧
  off_file + sizeof_lfs_file_t ≤ SIZE ∧ SIZE `mod` 4 = 0.
Proof.
  assert (Hd : off_descr `mod` 4 = 0) by apply align_up_4.
  assert (Hc : off_fileCfg = off_descr + 84).
  { unfold Pool.off_fileCfg. apply align_up_4_id. by apply mod_4_add. }
  assert (Hf : off_file = off_descr + 96).
  { unfold Pool.off_file. rewrite Hc.
    change sizeof_lfs_file_config with 12.
    replace (off_descr + 84 + 12) with (off_descr + 96) by lia.
    apply align_up_4_id. by apply mod_4_add. }
  split_and!; try done.
  - apply (align_up_4 (93 + CP23LFS_CACHE_SIZE)).
  - apply align_up_4.
  - apply align_up_4.
Qed.

Lemma size_words : 4 * (SIZE / 4) = SIZE.
Proof.
  destruct layout_facts as (_ & _ & _ & _ & _ & _ & _ & Hm).
  pose proof (Nat.div_mod_eq SIZE 4). lia.
Qed.

Lemma size_bounds : off_allocated < off_descr ∧ off_descr + 96 ≤ SIZE.
Proof.
  destruct layout_facts as (Ha & _ & Hd & _ & _ & Hf & Hs & _). lia.
Qed.

Lemma clear_structure_zero (r : record) :
  length r = SIZE →
  clear_structure CP23LFS_CACHE_SIZE sizeof_lfs_file_t r = replicate SIZE 0%Z.
Proof.
  intros Hlen. unfold clear_structure.
  destruct layout_facts as (_ & _ & _ & _ & _ & _ & _ & ->).
  cbn [for_loop]. apply list_eq. intros i.
  pose proof size_words as Hw.
  rewrite clear_words_lookup by lia. case_decide as Hi.
  - symmetry. apply lookup_replicate_2. lia.
  - rewrite (proj1 (lookup_replicate_None SIZE 0%Z i)) by lia.
    apply lookup_ge_None. lia.
Qed.

(** ** The search loop *)

Lemma find_free_spec (n cnt : nat) (p : pool) :
  cnt + n ≤ length p →
  match find_free n cnt p with
  | (p', Some h) =>
    cnt ≤ h < cnt + n ∧ allocated (p !!! h) = false ∧
    (∀ j, cnt ≤ j < h → allocated (p !!! j) = true) ∧
    p' = <[h := store8 (p !!! h) off_allocated 1]> p
  | (p', None) =>
    p' = p ∧ ∀ j, cnt ≤ j < cnt + n → allocated (p !!! j) = true
  end.
Proof.
  revert cnt. induction n as [|n IH]; intros cnt Hlen; cbn [find_free].
  { split; [done|]. intros j Hj. lia. }
  destruct (allocated (p !!! cnt)) eqn:Ha; cbn [negb].
  - specialize (IH (S cnt) ltac:(lia)).
    destruct (find_free n (S cnt) p) as [p' [h|]].
    + destruct IH as (Hh & Hf & Hb & ->). split_and!; [lia|lia|done| |done].
      intros j Hj. destruct (decide (j = cnt)) as [->|]; [done|]. apply Hb. lia.
    + destruct IH as [-> Hb]. split; [done|].
      intros j Hj. destruct (decide (j = cnt)) as [->|]; [done|]. apply Hb. lia.
  - split_and!; [lia|lia|done|intros; lia|].
    rewrite list_lookup_total_insert_eq by lia.
    rewrite list_insert_insert_eq. f_equal.
    unfold store8. by rewrite list_insert_insert_eq.
Qed.

(** ** The descriptor table *)

Abbreviation slot_addr :=
  (slot_addr CP23LFS_CACHE_SIZE sizeof_lfs_file_t pool_base).
Abbreviation init_descr_entry :=
  (init_descr_entry CP23LFS_CACHE_SIZE sizeof_lfs_file_t pool_base).
Abbreviation init_descr :=
  (init_descr CP23LFS_CACHE_SIZE sizeof_lfs_file_t pool_base).
Abbreviation init_fileCfg :=
  (init_fileCfg CP23LFS_CACHE_SIZE sizeof_lfs_file_t pool_base).
Abbreviation descr_type := (descr_type CP23LFS_CACHE_SIZE).
Abbreviation descr_buffer := (descr_buffer CP23LFS_CACHE_SIZE).
Abbreviation descr_size := (descr_size CP23LFS_CACHE_SIZE).

Ltac layout_consts :=
  cbv [sizeof_lfs_attr attr_type attr_buffer attr_size sizeof_lfs_file_config
       cfg_buffer cfg_attrs cfg_attr_count CP23LFS_ATTR_NUM
       CP23LFS_FILES_MAX] in *.

Lemma init_descr_entry_spec (h c : nat) (r : record) :
  off_descr + c * 12 + 12 ≤ length r →
  let r' := init_descr_entry h c r in
  length r' = length r ∧
  descr_type r' c = uint8 (Z.of_nat c) ∧
  descr_buffer r' c = uint32 (slot_addr h + Z.of_nat (parOffset !!! c)) ∧
  descr_size r' c = uint32 (Z.of_nat (parSize !!! c)) ∧
  ∀ off, off < off_descr + c * 12 ∨ off_descr + c * 12 + 12 ≤ off →
         r' !! off = r !! off.
Proof.
  intros Hlen r'. subst r'.
  unfold Pool.init_descr_entry, Pool.descr_type, Pool.descr_buffer,
    Pool.descr_size.
  layout_consts. split_and!.
  - by rewrite !length_store32, length_store8.
  - apply load8_lookup. rewrite !lookup_store32_out by lia.
    apply lookup_store8_eq. lia.
  - rewrite load32_store32_ne by lia. apply load32_store32_eq.
    rewrite length_store8. lia.
  - apply load32_store32_eq. rewrite length_store32, length_store8. lia.
  - intros off Hoff. rewrite !lookup_store32_out by lia.
    apply lookup_store8_ne. lia.
Qed.

Lemma init_descr_loop (h n c : nat) (r : record) :
  off_descr + (c + n) * 12 ≤ length r →
  let r' := for_loop n c (init_descr_entry h) r in
  length r' = length r ∧
  (∀ i, c ≤ i < c + n →
     descr_type r' i = uint8 (Z.of_nat i) ∧
     descr_buffer r' i = uint32 (slot_addr h + Z.of_nat (parOffset !!! i)) ∧
     descr_size r' i = uint32 (Z.of_nat (parSize !!! i))) ∧
  ∀ off, off < off_descr + c * 12 ∨ off_descr + (c + n) * 12 ≤ off →
         r' !! off = r !! off.
Proof.
  revert c r. induction n as [|n IH]; intros c r Hlen; cbn [for_loop].
  { split_and!; [done|intros; lia|done]. }
  destruct (init_descr_entry_spec h c r ltac:(lia)) as (Hl & Ht & Hb & Hs & Hf).
  destruct (IH (S c) (init_descr_entry h c r) ltac:(lia)) as (Hl' & He & Hf').
  split_and!.
  - lia.
  - intros i Hi. destruct (decide (i = c)) as [->|Hne]; [|apply He; lia].
    rewrite <- Ht, <- Hb, <- Hs.
    unfold Pool.descr_type, Pool.descr_buffer, Pool.descr_size.
    layout_consts. split_and!.
    + apply load8_ext, Hf'. lia.
    + apply load32_ext. intros k Hk. apply Hf'. lia.
    + apply load32_ext. intros k Hk. apply Hf'. lia.
  - intros off Hoff. rewrite Hf' by lia. apply Hf. lia.
Qed.

Lemma par_tables (i : nat) :
  i < 7 → parOffset !!! i ≤ 56 ∧ 1 ≤ parSize !!! i ≤ 32.
Proof.
  intros Hi. do 7 (destruct i as [|i]; [vm_compute; lia|]). lia.
Qed.

Abbreviation CP23_GetFileStructure :=
  (CP23_GetFileStructure CP23LFS_CACHE_SIZE sizeof_lfs_file_t pool_base).
Abbreviation well_formed :=
  (well_formed CP23LFS_CACHE_SIZE sizeof_lfs_file_t).
Abbreviation fresh_pool := (fresh_pool CP23LFS_CACHE_SIZE sizeof_lfs_file_t).

(** The structure handed out for slot [h]. *)
Lemma acquired_record (h : nat) :
  let r := init_fileCfg h (init_descr h (replicate SIZE 0%Z)) in
  length r = SIZE ∧
  (∀ i, i < 7 →
     descr_type r i = uint8 (Z.of_nat i) ∧
     descr_buffer r i = uint32 (slot_addr h + Z.of_nat (parOffset !!! i)) ∧
     descr_size r i = uint32 (Z.of_nat (parSize !!! i))) ∧
  ∀ off, off < SIZE → off < off_descr ∨ off_file ≤ off → r !! off = Some 0%Z.
Proof.
  intros r. subst r.
  destruct layout_facts as (Ha & Hb & Hd & _ & Hc & Hf & Hs & _).
  pose proof size_bounds as [_ Hsz].
  destruct (init_descr_loop h 7 0 (replicate SIZE 0%Z)) as (Hl & He & Hfr).
  { rewrite length_replicate. lia. }
  rewrite length_replicate in Hl.
  unfold Pool.init_fileCfg, Pool.init_descr. layout_consts. rewrite Hc.
  split_and!.
  - by rewrite !length_store32.
  - intros i Hi. destruct (He i ltac:(lia)) as (Ht & Hbuf & Hsize).
    rewrite <- Ht, <- Hbuf, <- Hsize.
    unfold Pool.descr_type, Pool.descr_buffer, Pool.descr_size.
    layout_consts. split_and!.
    + apply load8_ext. rewrite !lookup_store32_out by lia. done.
    + rewrite !load32_store32_ne by lia. done.
    + rewrite !load32_store32_ne by lia. done.
  - intros off Hoff Hout. rewrite !lookup_store32_out by lia.
    rewrite Hfr by lia. by apply lookup_replicate_2.
Qed.

Lemma acquire_some (p p' : pool) (h : nat) :
  well_formed p →
  CP23_GetFileStructure p = (p', Some h) →
  h < CP23LFS_FILES_MAX ∧ allocated (p !!! h) = false ∧
  (∀ j, j < h → allocated (p !!! j) = true) ∧
  clear_structure CP23LFS_CACHE_SIZE sizeof_lfs_file_t
    (store8 (p !!! h) off_allocated 1) = replicate SIZE 0%Z ∧
  p' = <[h := init_fileCfg h (init_descr h (replicate SIZE 0%Z))]> p.
Proof.
  intros [Hlen Hall] Hacq. unfold Pool.CP23_GetFileStructure in Hacq.
  pose proof (find_free_spec CP23LFS_FILES_MAX 0 p ltac:(lia)) as Hff.
  destruct (find_free CP23LFS_FILES_MAX 0 p) as [p1 [h1|]]; [|done].
  destruct Hff as (Hh & Hfree & Hbefore & ->). simplify_eq.
  rewrite list_lookup_total_insert_eq in * by lia.
  assert (length (p !!! h) = SIZE) as Hr.
  { eapply (Forall_lookup_1 _ _ h) in Hall; [done|].
    apply list_lookup_lookup_total_lt. lia. }
  rewrite clear_structure_zero by (by rewrite length_store8).
  split_and!; [lia|done|intros; apply Hbefore; lia|done|].
  by rewrite list_insert_insert_eq.
Qed.

Lemma acquire_none (p p' : pool) :
  well_formed p →
  CP23_GetFileStructure p = (p', None) →
  p' = p ∧ ∀ j, j < CP23LFS_FILES_MAX → allocated (p !!! j) = true.
Proof.
  intros [Hlen Hall] Hacq. unfold Pool.CP23_GetFileStructure in Hacq.
  pose proof (find_free_spec CP23LFS_FILES_MAX 0 p ltac:(lia)) as Hff.
  destruct (find_free CP23LFS_FILES_MAX 0 p) as [p1 [h1|]]; [done|].
  destruct Hff as [-> Hb]. simplify_eq. split; [done|].
  intros j Hj. apply Hb. lia.
Qed.

Lemma acquired_record_free (h : nat) :
  allocated (init_fileCfg h (init_descr h (replicate SIZE 0%Z))) = false.
Proof.
  destruct (acquired_record h) as (_ & _ & Hz).
  pose proof size_bounds as [Ha Hs].
  unfold allocated. rewrite (load8_lookup _ _ 0%Z); [done|].
  apply Hz; lia.
Qed.

Lemma well_formed_insert (p : pool) (h : nat) (r : record) :
  well_formed p → length r = SIZE → well_formed (<[h := r]> p).
Proof.
  intros [Hlen Hall] Hr. split; [by rewrite length_insert|].
  by apply Forall_insert.
Qed.

Lemma well_formed_fresh : well_formed fresh_pool.
Proof.
  split; [apply length_replicate|].
  apply Forall_replicate. apply length_replicate.
Qed.

(** Whatever structure a call returns, its allocated flag reads false
    afterwards. *)
Lemma acquire_leaves_slot_free (p p' : pool) (h : nat) :
  well_formed p →
  CP23_GetFileStructure p = (p', Some h) →
  allocated (p' !!! h) = false.
Proof.
  intros Hwf Hacq.
  destruct (acquire_some _ _ _ Hwf Hacq) as (Hh & _ & _ & _ & ->).
  rewrite list_lookup_total_insert_eq
    by (destruct Hwf as [-> _]; unfold CP23LFS_FILES_MAX in *; lia).
  apply acquired_record_free.
Qed.

(** A pool whose first structure is free hands out that structure and leaves
    it free. *)
Lemma acquire_first_free (p : pool) :
  well_formed p → allocated (p !!! 0) = false →
  ∃ p', CP23_GetFileStructure p = (p', Some 0) ∧
        well_formed p' ∧ allocated (p' !!! 0) = false.
Proof.
  intros Hwf Hfree.
  destruct (CP23_GetFileStructure p) as [p' [h|]] eqn:Hacq.
  - destruct (acquire_some _ _ _ Hwf Hacq) as (Hh & _ & Hb & _ & ->).
    assert (h = 0) as ->.
    { destruct h as [|h]; [done|]. specialize (Hb 0 ltac:(lia)). congruence. }
    eexists. split; [done|]. split.
    + apply well_formed_insert; [done|]. apply acquired_record.
    + rewrite list_lookup_total_insert_eq by (destruct Hwf as [-> _]; unfold CP23LFS_FILES_MAX in *; lia).
      apply acquired_record_free.
  - destruct (acquire_none _ _ Hwf Hacq) as [_ Hb].
    specialize (Hb 0 ltac:(unfold CP23LFS_FILES_MAX; lia)). congruence.
Qed.

Lemma acquire_many_first_free (n : nat) (p : pool) :
  well_formed p → allocated (p !!! 0) = false →
  (acquire_many CP23LFS_CACHE_SIZE sizeof_lfs_file_t pool_base n p).2
  = replicate n (Some 0).
Proof.
  revert p. induction n as [|n IH]; intros p Hwf Hfree; [done|].
  cbn [acquire_many].
  destruct (acquire_first_free p Hwf Hfree) as (p' & -> & Hwf' & Hfree').
  specialize (IH p' Hwf' Hfree').
  destruct (acquire_many _ _ _ n p') as [p'' hs]. simpl in *. by rewrite IH.
Qed.

(** C1, as the code behaves: the flag set by the search loop is wiped by the
    clearing loop that follows, so the structure just handed out is free
    again.  From the start-up pool the first call returns slot 0 with its
    allocated flag clear, and nine successive calls all return slot 0: the
    handles are not distinct and the ninth call does not fail. *)
Theorem acquire_hands_out_slot_0_again :
  (CP23_GetFileStructure fresh_pool).2 = Some 0 ∧
  allocated ((CP23_GetFileStructure fresh_pool).1 !!! 0) = false ∧
  (acquire_many CP23LFS_CACHE_SIZE sizeof_lfs_file_t pool_base 9 fresh_pool).2
  = replicate 9 (Some 0).
Proof.
  assert (Hfree : allocated (fresh_pool !!! 0) = false).
  { unfold Pool.fresh_pool. rewrite lookup_total_replicate_2 by (vm_compute; lia).
    unfold allocated, load8. pose proof size_bounds as [Ha Hs].
    rewrite lookup_replicate_2 by lia. done. }
  destruct (acquire_first_free _ well_formed_fresh Hfree) as (p' & -> & _ & Hf).
  split_and!; [done..|].
  by apply acquire_many_first_free, Hfree; apply well_formed_fresh.
Qed.

(** C2: a successful call clears every byte of the structure it returns
    (the size is a multiple of four, so the word loop covers it and the byte
    loop has nothing left to do) and then fills the descriptor table: entry
    [i] of the seven has type [i], points to the address of the structure
    plus the offset of field [i], and carries the size of that field.  The
    bytes outside the descriptor table and the file configuration are all
    zero in the structure returned. *)
Theorem acquire_clears_and_describes (p p' : pool) (h : nat) :
  well_formed p →
  (0 ≤ pool_base)%Z →
  (pool_base + Z.of_nat (CP23LFS_FILES_MAX * SIZE) ≤ 2 ^ 32)%Z →
  CP23_GetFileStructure p = (p', Some h) →
  h < CP23LFS_FILES_MAX ∧
  clear_structure CP23LFS_CACHE_SIZE sizeof_lfs_file_t
    (store8 (p !!! h) off_allocated 1) = replicate SIZE 0%Z ∧
  SIZE `mod` 4 = 0 ∧
  p' !!! h = init_fileCfg h (init_descr h (replicate SIZE 0%Z)) ∧
  (∀ i, i < CP23LFS_ATTR_NUM →
     descr_type (p' !!! h) i = Z.of_nat i ∧
     descr_buffer (p' !!! h) i =
       (slot_addr h + Z.of_nat (parOffset !!! i))%Z ∧
     descr_size (p' !!! h) i = Z.of_nat (parSize !!! i)) ∧
  parOffset = [0; 2; 13; 22; 23; 24; 56] ∧
  parSize = [2; 11; 9; 1; 1; 32; 32] ∧
  (∀ off, off < SIZE → off < off_descr ∨ off_file ≤ off →
          (p' !!! h) !! off = Some 0%Z) ∧
  (∀ j, j ≠ h → p' !!! j = p !!! j).
Proof.
  intros Hwf Hbase Htop Hacq.
  destruct (acquire_some _ _ _ Hwf Hacq) as (Hh & _ & _ & Hclear & ->).
  destruct (acquired_record h) as (Hlen & Hdescr & Hzero).
  destruct layout_facts as (_ & _ & _ & _ & _ & _ & _ & Hmod).
  pose proof size_bounds as [Ha Hs].
  rewrite list_lookup_total_insert_eq by (destruct Hwf as [-> _]; unfold CP23LFS_FILES_MAX in *; lia).
  split_and!; try done.
  - intros i Hi. destruct (Hdescr i Hi) as (-> & -> & ->).
    destruct (par_tables i Hi) as [Hpo Hps].
    layout_consts.
    assert (h * SIZE + SIZE ≤ 8 * SIZE) by nia.
    unfold Pool.slot_addr, uint8.
    rewrite Z.mod_small by lia. rewrite !uint32_small by lia. done.
  - intros j Hj. by rewrite list_lookup_total_insert_ne.
Qed.

(** C10: releasing a handle to a structure of the pool writes the allocated
    flag and nothing else: the flag reads false afterwards, every other byte
    of the structure and every other structure of the pool are as before, so
    nothing is cleared at release. *)
Theorem release_clears_only_the_flag (p : pool) (h : nat) :
  well_formed p → h < CP23LFS_FILES_MAX →
  allocated (p !!! h) = true →
  let p' := CP23_ReleaseFileStructure (Some h) p in
  allocated (p' !!! h) = false ∧
  length (p' !!! h) = length (p !!! h) ∧
  (∀ off, off ≠ off_allocated → (p' !!! h) !! off = (p !!! h) !! off) ∧
  (∀ j, j ≠ h → p' !!! j = p !!! j) ∧
  well_formed p'.
Proof.
  intros Hwf Hh Halloc p'. subst p'. unfold CP23_ReleaseFileStructure.
  pose proof Hwf as [Hlen Hall].
  assert (length (p !!! h) = SIZE) as Hr.
  { eapply (Forall_lookup_1 _ _ h) in Hall; [done|].
    apply list_lookup_lookup_total_lt. lia. }
  pose proof size_bounds as [Ha Hs].
  rewrite list_lookup_total_insert_eq by lia.
  split_and!.
  - unfold allocated. rewrite load8_store8_eq by lia. done.
  - apply length_store8.
  - intros off Hoff. by apply lookup_store8_ne.
  - intros j Hj. by rewrite list_lookup_total_insert_ne.
  - apply well_formed_insert; [done|]. by rewrite length_store8.
Qed.

(** ** Further properties of the pool *)

Lemma record_length (p : pool) (h : nat) :
  well_formed p → h < CP23LFS_FILES_MAX → length (p !!! h) = SIZE.
Proof.
  intros [Hlen Hall] Hh.
  eapply (Forall_lookup_1 _ _ h) in Hall; [done|].
  apply list_lookup_lookup_total_lt. lia.
Qed.

Lemma pool_length (p : pool) : well_formed p → length p = 8.
Proof. by intros [-> _]. Qed.

(** X12: Exhaustion: the call returns [NULL] exactly when every structure is
    marked allocated, and then it leaves the pool as it was. *)
Theorem acquire_exhausted (p : pool) :
  well_formed p →
  ((CP23_GetFileStructure p).2 = None ↔
   ∀ j, j < CP23LFS_FILES_MAX → allocated (p !!! j) = true) ∧
  ((CP23_GetFileStructure p).2 = None → (CP23_GetFileStructure p).1 = p).
Proof.
  intros Hwf. destruct (CP23_GetFileStructure p) as [p' [h|]] eqn:Hacq; cbn [fst snd].
  - destruct (acquire_some _ _ _ Hwf Hacq) as (Hh & Hfree & _).
    split; [|done]. split; [done|]. intros Hall.
    specialize (Hall h Hh). congruence.
  - destruct (acquire_none _ _ Hwf Hacq) as [-> Hall]. done.
Qed.

(** X13: The call returns the free structure of lowest index: [h] is returned
    exactly when [h] is free and every structure before it is allocated, and
    no structure other than [h] is touched. *)
Theorem acquire_lowest_free (p : pool) (h : nat) :
  well_formed p →
  ((CP23_GetFileStructure p).2 = Some h ↔
   h < CP23LFS_FILES_MAX ∧ allocated (p !!! h) = false ∧
   ∀ j, j < h → allocated (p !!! j) = true) ∧
  ((CP23_GetFileStructure p).2 = Some h →
   ∀ j, j ≠ h → (CP23_GetFileStructure p).1 !!! j = p !!! j).
Proof.
  intros Hwf. destruct (CP23_GetFileStructure p) as [p' [h'|]] eqn:Hacq; cbn [fst snd].
  - destruct (acquire_some _ _ _ Hwf Hacq) as (Hh & Hfree & Hb & _ & ->).
    split.
    + split.
      * intros [= ->]. done.
      * intros (Hh2 & Hfree2 & Hb2). f_equal.
        destruct (Nat.lt_trichotomy h' h) as [Hlt|[->|Hlt]]; [|done|].
        -- specialize (Hb2 h' Hlt). congruence.
        -- specialize (Hb h Hlt). congruence.
    + intros [= ->] j Hj. by rewrite list_lookup_total_insert_ne.
  - destruct (acquire_none _ _ Hwf Hacq) as [-> Hall].
    split; [|done]. split; [done|]. intros (Hh & Hfree & _).
    specialize (Hall h Hh). congruence.
Qed.

(** X14: The file configuration of the structure returned: it points to the
    descriptor table and to the service buffer of that same structure and
    holds the descriptor count 7; the table is four-byte aligned and lies,
    with the configuration, inside the structure. *)
Theorem acquire_file_config (p p' : pool) (h : nat) :
  well_formed p →
  (0 ≤ pool_base)%Z →
  (pool_base + Z.of_nat (CP23LFS_FILES_MAX * SIZE) ≤ 2 ^ 32)%Z →
  CP23_GetFileStructure p = (p', Some h) →
  load32 (p' !!! h) (off_fileCfg + cfg_attrs) =
    (slot_addr h + Z.of_nat off_descr)%Z ∧
  load32 (p' !!! h) (off_fileCfg + cfg_attr_count) = 7%Z ∧
  load32 (p' !!! h) (off_fileCfg + cfg_buffer) =
    (slot_addr h + Z.of_nat off_buffer)%Z ∧
  off_descr `mod` 4 = 0 ∧
  off_buffer + CP23LFS_CACHE_SIZE ≤ off_descr ∧
  off_descr + CP23LFS_ATTR_NUM * sizeof_lfs_attr ≤ off_fileCfg ∧
  off_fileCfg + sizeof_lfs_file_config ≤ SIZE.
Proof.
  intros Hwf Hbase Htop Hacq.
  destruct (acquire_some _ _ _ Hwf Hacq) as (Hh & _ & _ & _ & ->).
  rewrite list_lookup_total_insert_eq by (rewrite pool_length; [layout_consts; lia|done]).
  destruct layout_facts as (Ha & Hb & Hd & Hm & Hc & Hf & Hs & _).
  destruct (init_descr_loop h 7 0 (replicate SIZE 0%Z)) as (Hl & _ & _).
  { rewrite length_replicate. lia. }
  rewrite length_replicate in Hl.
  unfold Pool.init_fileCfg, Pool.init_descr. layout_consts.
  assert (h * SIZE + SIZE ≤ 8 * SIZE) by nia.
  split_and!; try lia.
  - rewrite !load32_store32_ne by lia. rewrite load32_store32_eq by lia.
    apply uint32_small. unfold Pool.slot_addr. lia.
  - rewrite load32_store32_ne by lia.
    rewrite load32_store32_eq by (rewrite length_store32; lia). done.
  - rewrite load32_store32_eq by (rewrite !length_store32; lia).
    apply uint32_small. unfold Pool.slot_addr. lia.
Qed.

Lemma par_tables_ordered (i j : nat) :
  i < j → j < 7 →
  parOffset !!! i + parSize !!! i ≤ parOffset !!! j ∧
  parOffset !!! j + parSize !!! j ≤ off_size.
Proof.
  intros Hij Hj.
  do 7 (destruct j as [|j]; [do 7 (destruct i as [|i];
         [vm_compute; lia|]); lia|]).
  lia.
Qed.

Lemma par_tables_end (i : nat) :
  i < 7 → parOffset !!! i + parSize !!! i ≤ 88 ∧ off_size = 88.
Proof.
  intros Hi. do 7 (destruct i as [|i]; [vm_compute; lia|]). lia.
Qed.

(** X15: The seven descriptors of the structure returned describe seven
    non-empty byte ranges that lie in this structure before its [size]
    field, in increasing order and without overlap; they never reach the
    allocated flag, the service buffer or the tables. *)
Theorem descriptors_disjoint (p p' : pool) (h : nat) :
  well_formed p →
  (0 ≤ pool_base)%Z →
  (pool_base + Z.of_nat (CP23LFS_FILES_MAX * SIZE) ≤ 2 ^ 32)%Z →
  CP23_GetFileStructure p = (p', Some h) →
  (∀ i, i < CP23LFS_ATTR_NUM →
     (slot_addr h ≤ descr_buffer (p' !!! h) i)%Z ∧
     (0 < descr_size (p' !!! h) i)%Z ∧
     (descr_buffer (p' !!! h) i + descr_size (p' !!! h) i
      ≤ slot_addr h + Z.of_nat off_size)%Z) ∧
  (∀ i j, i < j → j < CP23LFS_ATTR_NUM →
     (descr_buffer (p' !!! h) i + descr_size (p' !!! h) i
      ≤ descr_buffer (p' !!! h) j)%Z) ∧
  off_size < off_allocated ∧ off_allocated < off_descr.
Proof.
  intros Hwf Hbase Htop Hacq.
  destruct (acquire_some _ _ _ Hwf Hacq) as (Hh & _ & _ & _ & ->).
  rewrite list_lookup_total_insert_eq by (rewrite pool_length; [layout_consts; lia|done]).
  destruct (acquired_record h) as (_ & Hdescr & _).
  pose proof size_bounds as [Ha Hs].
  layout_consts.
  assert (h * SIZE + SIZE ≤ 8 * SIZE) by nia.
  assert (Hval : ∀ i, i < 7 →
    descr_buffer (init_fileCfg h (init_descr h (replicate SIZE 0%Z))) i
      = (slot_addr h + Z.of_nat (parOffset !!! i))%Z ∧
    descr_size (init_fileCfg h (init_descr h (replicate SIZE 0%Z))) i
      = Z.of_nat (parSize !!! i)).
  { intros i Hi. destruct (Hdescr i Hi) as (_ & -> & ->).
    destruct (par_tables i Hi) as [Hpo Hps].
    unfold Pool.slot_addr. rewrite !uint32_small by lia. done. }
  split_and!.
  - intros i Hi. destruct (Hval i Hi) as [-> ->].
    destruct (par_tables i Hi) as [Hpo Hps].
    destruct (par_tables_end i Hi) as [Hend ->].
    unfold Pool.slot_addr. lia.
  - intros i j Hij Hj.
    destruct (Hval i ltac:(lia)) as [-> ->].
    destruct (Hval j Hj) as [-> _].
    destruct (par_tables_ordered i j Hij Hj) as [Ho _]. lia.
  - vm_compute. lia.
  - done.
Qed.

(** X16: Release followed by acquire: when every structure is in use, releasing
    structure [h] makes the next call return [h], cleared and described
    afresh, while the other structures stay as they were. *)
Theorem release_then_acquire (p : pool) (h : nat) :
  well_formed p → h < CP23LFS_FILES_MAX →
  (∀ j, j < CP23LFS_FILES_MAX → allocated (p !!! j) = true) →
  let p1 := CP23_ReleaseFileStructure (Some h) p in
  (CP23_GetFileStructure p1).2 = Some h ∧
  (CP23_GetFileStructure p1).1 !!! h =
    init_fileCfg h (init_descr h (replicate SIZE 0%Z)) ∧
  (∀ j, j ≠ h → (CP23_GetFileStructure p1).1 !!! j = p !!! j).
Proof.
  intros Hwf Hh Hall p1. subst p1. unfold CP23_ReleaseFileStructure.
  pose proof Hh as Hh8. unfold CP23LFS_FILES_MAX in Hh8.
  pose proof (pool_length p Hwf) as Hlen.
  pose proof (record_length p h Hwf Hh) as Hr.
  pose proof size_bounds as [Ha Hs].
  set (p1 := <[h := store8 (p !!! h) off_allocated 0]> p).
  assert (Hwf1 : well_formed p1).
  { apply well_formed_insert; [done|]. by rewrite length_store8. }
  assert (Hfree : allocated (p1 !!! h) = false).
  { unfold p1. rewrite list_lookup_total_insert_eq by lia.
    unfold allocated. rewrite load8_store8_eq by lia. done. }
  assert (Hother : ∀ j, j ≠ h → p1 !!! j = p !!! j).
  { intros j Hj. unfold p1. by rewrite list_lookup_total_insert_ne. }
  destruct (CP23_GetFileStructure p1) as [p' [h'|]] eqn:Hacq; cbn [fst snd].
  - destruct (acquire_some _ _ _ Hwf1 Hacq) as (Hh' & Hfree' & _ & _ & ->).
    assert (h' = h) as ->.
    { destruct (decide (h' = h)) as [|Hne]; [done|].
      rewrite (Hother h' Hne) in Hfree'. specialize (Hall h' Hh'). congruence. }
    split_and!; [done| |].
    + rewrite list_lookup_total_insert_eq; [done|]. unfold p1.
      rewrite length_insert. lia.
    + intros j Hj. rewrite list_lookup_total_insert_ne by done. by apply Hother.
  - destruct (acquire_none _ _ Hwf1 Hacq) as [_ Hall'].
    specialize (Hall' h Hh). congruence.
Qed.

(** X17: A second call right after a successful one returns the same handle and
    leaves the pool exactly as the first call left it. *)
Theorem acquire_twice_same (p p' : pool) (h : nat) :
  well_formed p →
  CP23_GetFileStructure p = (p', Some h) →
  CP23_GetFileStructure p' = (p', Some h).
Proof.
  intros Hwf Hacq.
  destruct (acquire_some _ _ _ Hwf Hacq) as (Hh & Hfree & Hb & _ & Hp').
  pose proof Hh as Hh8. unfold CP23LFS_FILES_MAX in Hh8.
  pose proof (pool_length p Hwf) as Hlen.
  assert (Hwf' : well_formed p').
  { subst p'. apply well_formed_insert; [done|]. apply acquired_record. }
  assert (Hfree' : allocated (p' !!! h) = false).
  { by apply (acquire_leaves_slot_free p p' h). }
  destruct (CP23_GetFileStructure p') as [p'' [h'|]] eqn:Hacq'.
  - destruct (acquire_some _ _ _ Hwf' Hacq') as (Hh' & Hf' & Hb' & _ & ->).
    assert (h' = h) as ->.
    { destruct (Nat.lt_trichotomy h' h) as [Hlt|[->|Hlt]]; [|done|].
      - rewrite Hp' in Hf'. rewrite list_lookup_total_insert_ne in Hf' by lia.
        specialize (Hb h' Hlt). congruence.
      - specialize (Hb' h Hlt). congruence. }
    f_equal. rewrite Hp' at 1. by rewrite list_insert_insert_eq.
  - destruct (acquire_none _ _ Hwf' Hacq') as [_ Hall].
    specialize (Hall h Hh). congruence.
Qed.

(** X18: Releasing a structure twice is the same as releasing it once, and
    releases of two different structures can be made in either order. *)
Theorem release_idempotent_commutes (p : pool) (a b : nat) :
  CP23_ReleaseFileStructure (Some a) (CP23_ReleaseFileStructure (Some a) p)
  = CP23_ReleaseFileStructure (Some a) p ∧
  (a ≠ b →
   CP23_ReleaseFileStructure (Some a) (CP23_ReleaseFileStructure (Some b) p)
   = CP23_ReleaseFileStructure (Some b)
       (CP23_ReleaseFileStructure (Some a) p)).
Proof.
  unfold CP23_ReleaseFileStructure. split.
  - destruct (decide (a < length p)) as [Ha|Ha].
    + rewrite list_lookup_total_insert_eq by done.
      rewrite list_insert_insert_eq. f_equal.
      unfold store8. by rewrite list_insert_insert_eq.
    + rewrite (list_insert_ge p) by lia. by rewrite list_insert_ge by lia.
  - intros Hab. rewrite !list_lookup_total_insert_ne by done.
    by apply list_insert_insert_ne.
Qed.

Import PoolCalls.

Abbreviation run_calls :=
  (run_calls CP23LFS_CACHE_SIZE sizeof_lfs_file_t pool_base).

Lemma all_free_step (p : pool) (c : call) :
  valid_call c →
  well_formed p ∧ (∀ j, j < CP23LFS_FILES_MAX → allocated (p !!! j) = false) →
  let p' := run_call CP23LFS_CACHE_SIZE sizeof_lfs_file_t pool_base p c in
  well_formed p' ∧ (∀ j, j < CP23LFS_FILES_MAX → allocated (p' !!! j) = false).
Proof.
  intros Hv [Hwf Hfree] p'. subst p'.
  pose proof (pool_length p Hwf) as Hlen.
  pose proof size_bounds as [Ha Hs].
  destruct c as [|h]; cbn [run_call valid_call] in *.
  - destruct (acquire_first_free p Hwf (Hfree 0 ltac:(layout_consts; lia)))
      as (p' & Hacq & Hwf' & Hfree').
    rewrite Hacq. cbn [fst]. split; [done|].
    destruct (acquire_some _ _ _ Hwf Hacq) as (_ & _ & _ & _ & ->).
    intros j Hj. destruct (decide (j = 0)) as [->|Hne]; [done|].
    rewrite list_lookup_total_insert_ne by done. by apply Hfree.
  - pose proof (record_length p h Hwf Hv) as Hr.
    unfold CP23_ReleaseFileStructure. split.
    + apply well_formed_insert; [done|]. by rewrite length_store8.
    + intros j Hj. destruct (decide (j = h)) as [->|Hne].
      * rewrite list_lookup_total_insert_eq by (layout_consts; lia).
        unfold allocated. rewrite load8_store8_eq by lia. done.
      * rewrite list_lookup_total_insert_ne by done. by apply Hfree.
Qed.

(** X19: What the pool looks like at any time: after any sequence of
    acquisitions and releases of structures of the pool, starting from the
    start-up state, the pool still holds eight structures of the fixed size,
    none of them is marked allocated, and the next acquisition returns
    structure 0. *)
Theorem reachable_pool_all_free (cs : list call) :
  Forall valid_call cs →
  let p := run_calls cs fresh_pool in
  well_formed p ∧
  (∀ j, j < CP23LFS_FILES_MAX → allocated (p !!! j) = false) ∧
  (CP23_GetFileStructure p).2 = Some 0.
Proof.
  intros Hcs. cbv zeta.
  assert (Hinv : ∀ p,
    well_formed p ∧
    (∀ j, j < CP23LFS_FILES_MAX → allocated (p !!! j) = false) →
    well_formed (run_calls cs p) ∧
    (∀ j, j < CP23LFS_FILES_MAX →
       allocated (run_calls cs p !!! j) = false)).
  { induction Hcs as [|c cs Hc _ IH]; intros p Hp; [done|].
    unfold PoolCalls.run_calls. cbn [foldl].
    apply IH. by apply all_free_step. }
  destruct (Hinv fresh_pool) as [Hwf Hfree].
  { split; [apply well_formed_fresh|]. intros j Hj.
    unfold Pool.fresh_pool. rewrite lookup_total_replicate_2 by done.
    pose proof size_bounds as [Ha Hs].
    unfold allocated, load8. rewrite lookup_replicate_2 by lia. done. }
  split_and!; [done|done|].
  destruct (acquire_first_free _ Hwf (Hfree 0 ltac:(layout_consts; lia)))
    as (p' & -> & _). done.
Qed.

End Layout.
End PoolProofs.
(** * Program and read against the device *)

Module DeviceProofs.
Import Flash Trace Device.

Lemma write_cells_out (bs : list Z) (m : gmap Z Z) (a k : Z) :
  0 ≤ a → a + Z.of_nat (length bs) ≤ CAPACITY →
  k < a ∨ a + Z.of_nat (length bs) ≤ k → 0 ≤ k < CAPACITY →
  write_cells m a bs !! k = m !! k.
Proof.
  revert m a. induction bs as [|b bs IH]; intros m a Ha Hlen Hk Hr; [done|].
  cbn [write_cells length] in *. rewrite Nat2Z.inj_succ in *.
  rewrite IH by lia.
  apply lookup_insert_ne. rewrite Z.mod_small by lia. lia.
Qed.

Lemma write_cells_in (bs : list Z) (m : gmap Z Z) (a : Z) (i : nat) (b : Z) :
  0 ≤ a → a + Z.of_nat (length bs) ≤ CAPACITY →
  bs !! i = Some b →
  write_cells m a bs !! (a + Z.of_nat i) = Some (uint8 b).
Proof.
  revert m a i. induction bs as [|b' bs IH]; intros m a i Ha Hlen Hi; [done|].
  cbn [write_cells length] in *. rewrite Nat2Z.inj_succ in Hlen.
  destruct i as [|i].
  - simplify_eq/=. rewrite Z.add_0_r. rewrite write_cells_out by lia.
    rewrite Z.mod_small by lia. apply lookup_insert_eq.
  - replace (a + Z.of_nat (S i)) with (a + 1 + Z.of_nat i) by lia.
    apply IH; [lia|lia|done].
Qed.

Lemma read_written_cells (bs : list Z) (m : gmap Z Z) (a : Z) :
  0 ≤ a → a + Z.of_nat (length bs) ≤ CAPACITY →
  read_cells (write_cells m a bs) a (length bs) = uint8 <$> bs.
Proof.
  intros Ha Hlen. apply list_eq. intros i. unfold read_cells.
  rewrite !list_lookup_fmap.
  destruct (bs !! i) as [b|] eqn:Hb.
  - pose proof (lookup_lt_Some _ _ _ Hb) as Hi.
    rewrite lookup_seqZ_lt by lia. cbn [fmap option_fmap option_map].
    rewrite Z.add_0_l. unfold read_cell.
    rewrite Z.mod_small by lia.
    by rewrite (write_cells_in bs m a i b).
  - apply lookup_ge_None in Hb. rewrite lookup_seqZ_ge by lia. done.
Qed.

Lemma uint8_bytes (bs : list Z) :
  Forall (λ b, 0 ≤ b < 256) bs → uint8 <$> bs = bs.
Proof.
  induction 1 as [|b bs Hb _ IH]; [done|].
  rewrite fmap_cons, IH. unfold uint8. by rewrite Z.mod_small.
Qed.

(** The busy-wait against the device: it polls until the device has finished
    and returns success, as long as that happens before the timeout. *)
Ltac status_calc :=
  change (Z.to_nat 1) with 1%nat; cbn;
  repeat match goal with
  | |- context [negb (Z.land (?a + ?b) 1 =? 0)] =>
    let v := eval vm_compute in (negb (Z.land (a + b) 1 =? 0)) in
    change (negb (Z.land (a + b) 1 =? 0)) with v
  end; cbn.

Lemma wait_loop_device (k : nat) :
  ∀ (fuel : nat) (op status : Z) (d : flash),
    busy d = k → shift_in d = None →
    now d - timer d + Z.of_nat k < IS25LP080D_BUSY_TIMEOUT_MSEC →
    (k < fuel)%nat →
    ∃ d' tr,
      wait_loop fuel op status d = (Some 0, d', tr) ∧
      cells d' = cells d ∧ busy d' = O ∧ shift_in d' = None.
Proof.
  unfold IS25LP080D_BUSY_TIMEOUT_MSEC.
  induction k as [|k IH]; intros fuel op status d Hb Hs Ht Hf.
  - destruct fuel as [|fuel]; [lia|].
    destruct d as [c w b tb si nw tm]. cbn in Hb, Hs, Ht. subst b si.
    cbn [wait_loop].
    unfold mbind, M_bind, mret, M_ret, cs_enable, cs_disable, transmit,
      receive, sw_timer_timeout, IS25LP080D_BUSY_TIMEOUT_MSEC.
    cbn. destruct (Z.leb_spec 2000 (nw - tm)) as [?|_]; [lia|].
    cbn. unfold status_byte. cbn. destruct w; status_calc; eauto 10.
  - destruct fuel as [|fuel]; [lia|].
    destruct d as [c w b tb si nw tm]. cbn in Hb, Hs, Ht. subst b si.
    cbn [wait_loop].
    unfold mbind, M_bind, mret, M_ret, cs_enable, cs_disable, transmit,
      receive, sw_timer_timeout, IS25LP080D_BUSY_TIMEOUT_MSEC.
    cbn. destruct (Z.leb_spec 2000 (nw - tm)) as [?|_]; [lia|].
    cbn. unfold status_byte. cbn.
    destruct w; status_calc.
    all: match goal with |- context [wait_loop ?f ?o ?s ?d] =>
           destruct (IH f o s d) as (d' & tr & Hrun & Hc & Hb' & Hs');
             [done|done|cbn; lia|lia|]
         end.
    all: rewrite Hrun; eauto 10.
Qed.

Lemma cmd4_shape (opcode addr : Z) :
  0 ≤ opcode < 256 → 0 ≤ addr < 2 ^ 24 →
  ∃ a2 a1 a0, cmd4 opcode addr = [opcode; a2; a1; a0] ∧
              65536 * a2 + 256 * a1 + a0 = addr.
Proof.
  intros Hop Ha. eexists _, _, _. split.
  - unfold cmd4, uint8. by rewrite Z.mod_small.
  - apply (DriverProofs.frame_addr_cmd4 opcode addr Ha).
Qed.

Lemma device_write_enable (d : flash) :
  at_rest d →
  execute (shift [CMD_WRITE_ENABLE] (select d)) =
    {| cells := cells d; wel := true; busy := O; t_busy := t_busy d;
       shift_in := None; now := now d; timer := timer d |}.
Proof. intros [Hs Hb]. destruct d. cbn in *. by subst. Qed.

Lemma device_program (d : flash) (addr : Z) (payload : list Z) :
  shift_in d = None → busy d = O → wel d = true → 0 ≤ addr < 2 ^ 24 →
  execute (shift payload (shift (cmd4 CMD_PAGE_PROGRAM addr) (select d))) =
    {| cells := write_cells (cells d) addr payload; wel := false;
       busy := t_busy d; t_busy := t_busy d; shift_in := None;
       now := now d; timer := timer d |}.
Proof.
  intros Hs Hb Hw Ha.
  destruct (cmd4_shape CMD_PAGE_PROGRAM addr) as (a2 & a1 & a0 & -> & Haddr);
    [done|done|].
  destruct d as [c w b tb si nw tm]. cbn in Hs, Hb, Hw. subst.
  unfold execute, shift, select. cbn.
  match goal with |- context [3 <=? ?x] =>
    destruct (Z.leb_spec 3 x); [|lia] end.
  done.
Qed.

Lemma device_read (d : flash) (addr : Z) (out : list Z) (n : Z) :
  shift_in d = None → busy d = O → 0 ≤ addr < 2 ^ 24 →
  shift_out out n (shift (cmd4 CMD_READ addr) (select d)) =
    (read_cells (cells d) addr (Z.to_nat n) ++ drop (Z.to_nat n) out,
     shift (cmd4 CMD_READ addr) (select d)) ∧
  execute (shift (cmd4 CMD_READ addr) (select d)) = d.
Proof.
  intros Hs Hb Ha.
  destruct (cmd4_shape CMD_READ addr) as (a2 & a1 & a0 & -> & Haddr);
    [done|done|].
  destruct d as [c w b tb si nw tm]. cbn in Hs, Hb. subst.
  unfold execute, shift_out, shift, select. cbn. done.
Qed.

(** C7: on the device of the round-trip property, at rest and finishing a
    program operation before the busy-wait timeout, programming [buf] at an
    address [addr < 2^20] with [addr + size <= 2^20] succeeds, and reading
    the same range back into a buffer of that size succeeds and yields
    exactly the bytes of [buf]. *)
Theorem program_then_read (d : flash) (addr : Z) (buf out : list Z)
  (fuel : nat) :
  at_rest d →
  Z.of_nat (t_busy d) < IS25LP080D_BUSY_TIMEOUT_MSEC →
  (t_busy d < fuel)%nat →
  0 ≤ addr < 2 ^ 20 →
  addr + Z.of_nat (length buf) ≤ 2 ^ 20 →
  Forall (λ b, 0 ≤ b < 256) buf →
  length out = length buf →
  ∃ d1 tr1,
    IS25LP080D_Program fuel addr buf (Z.of_nat (length buf)) d =
      (Some 0, d1, tr1) ∧
    ∃ d2 tr2,
      IS25LP080D_Read addr out (Z.of_nat (length buf)) d1 =
        ((0, buf), d2, tr2).
Proof.
  intros Hrest Htb Hfuel Ha Hlen Hbytes Hout.
  pose proof Hrest as [Hs Hb].
  unfold IS25LP080D_Program, IS25LP080D_WaitWhileBusy, bytes_at.
  rewrite Nat2Z.id, firstn_all.
  unfold mbind, M_bind, mret, M_ret, cs_enable, cs_disable, transmit,
    receive, load_sw_timer.
  cbn [SPI_CS_Enable SPI_CS_Disable SPI_Transmit SPI_Receive LoadSWTimer
       flash_platform negb].
  rewrite device_write_enable by done.
  rewrite device_program by (cbn; done || lia).
  cbn [cells wel busy t_busy shift_in now timer].
  edestruct (wait_loop_device (t_busy d) fuel CMD_PAGE_PROGRAM 0)
    as (d1 & tr & Hrun & Hc & Hb1 & Hs1); cycle -1.
  - rewrite Hrun. eexists _, _. split; [done|].
    unfold IS25LP080D_Read.
    unfold mbind, M_bind, mret, M_ret, cs_enable, cs_disable, transmit,
      receive.
    cbn [SPI_CS_Enable SPI_CS_Disable SPI_Transmit SPI_Receive flash_platform
         negb].
    destruct (device_read d1 addr out (Z.of_nat (length buf)))
      as [Hso Hex]; [done|done|lia|].
    rewrite Hso. cbn [negb]. rewrite Hex.
    rewrite Hc. cbn [cells]. rewrite Nat2Z.id.
    rewrite read_written_cells by (unfold CAPACITY; lia).
    rewrite uint8_bytes by done.
    rewrite <- Hout, drop_all, app_nil_r. eauto.
  - done.
  - done.
  - cbn. unfold IS25LP080D_BUSY_TIMEOUT_MSEC in *. lia.
  - done.
Qed.

End DeviceProofs.
(** * Worked instances *)

Module Instances.
Import Flash Trace Pool Stub Device.

(** C5 as the spec has it fails: in a world where a status read would
    succeed and report bit 0 clear, but the timer already reports the
    timeout at its first query, the busy-wait returns the error code without
    a single transfer, so its result does depend on the timer. *)
Lemma busy_wait_status_first_counterexample :
  SPI_Transmit IS25LP080D_SPI_LINE [CMD_READ_STATUS]
    (SPI_CS_Enable SPI1_ID (LoadSWTimer Stub.expired_but_ready)) =
    (true, Stub.expired_but_ready) ∧
  (SPI_Receive IS25LP080D_SPI_LINE [0] 1 Stub.expired_but_ready).1 =
    (true, [0]) ∧
  Z.land (hd 0 [0]) 0x01 = 0 ∧
  result (IS25LP080D_WaitWhileBusy 1 CMD_PAGE_PROGRAM Stub.expired_but_ready)
    = Some IS25LP080D_ERROR ∧
  result (IS25LP080D_WaitWhileBusy 1 CMD_PAGE_PROGRAM Stub.expired_but_ready)
    ≠ Some 0 ∧
  calls is_transport
    (trace (IS25LP080D_WaitWhileBusy 1 CMD_PAGE_PROGRAM
              Stub.expired_but_ready)) = [].
Proof. split_and!; try reflexivity. vm_compute. discriminate. Qed.

Lemma busy_wait_checks_timer_first_witness :
  IS25LP080D_WaitWhileBusy 1 CMD_PAGE_PROGRAM Stub.ready_at_once =
    (Some 0,
     {| Stub.tx_script := []; Stub.rx_script := []; Stub.timer_script := [] |},
     [EvLoadSWTimer;
      EvSWTimerTimeout IS25LP080D_BUSY_TIMEOUT_MSEC false;
      EvCSEnable SPI1_ID;
      EvTransmit IS25LP080D_SPI_LINE [CMD_READ_STATUS] true;
      EvReceive IS25LP080D_SPI_LINE 1 true [0];
      EvCSDisable SPI1_ID]) ∧
  IS25LP080D_WaitWhileBusy 1 CMD_PAGE_PROGRAM Stub.expired_but_ready =
    (Some IS25LP080D_ERROR,
     {| Stub.tx_script := []; Stub.rx_script := [(true, [0])];
        Stub.timer_script := [] |},
     [EvLoadSWTimer;
      EvSWTimerTimeout IS25LP080D_BUSY_TIMEOUT_MSEC true;
      EvRTTPrintf RTT_EC_IS25LP080D_TIMEOUT CMD_PAGE_PROGRAM;
      EvManageEventError EC_IS25LP080D_TIMEOUT true CMD_PAGE_PROGRAM]).
Proof.
  split.
  - exact (proj1 (proj2 (DriverProofs.busy_wait_checks_timer_first
                           Stub.ready_at_once 0 CMD_PAGE_PROGRAM))
             {| Stub.tx_script := []; Stub.rx_script := [(true, [0])];
                Stub.timer_script := [] |}
             {| Stub.tx_script := []; Stub.rx_script := [(true, [0])];
                Stub.timer_script := [] |}
             {| Stub.tx_script := []; Stub.rx_script := [];
                Stub.timer_script := [] |} [0]
             eq_refl eq_refl eq_refl eq_refl).
  - exact (proj2 (proj2 (DriverProofs.busy_wait_checks_timer_first
                           Stub.expired_but_ready 0 CMD_PAGE_PROGRAM))
             {| Stub.tx_script := []; Stub.rx_script := [(true, [0])];
                Stub.timer_script := [] |} eq_refl).
Defined.

Lemma timeout_reported_once_witness :
  (result (IS25LP080D_WaitWhileBusy 5 CMD_SECTOR_ERASE Stub.stuck_busy)
     = Some IS25LP080D_ERROR ∧
   calls is_rtt (trace (IS25LP080D_WaitWhileBusy 5 CMD_SECTOR_ERASE
                          Stub.stuck_busy))
     = [EvRTTPrintf RTT_EC_IS25LP080D_TIMEOUT CMD_SECTOR_ERASE] ∧
   calls is_manage (trace (IS25LP080D_WaitWhileBusy 5 CMD_SECTOR_ERASE
                             Stub.stuck_busy))
     = [EvManageEventError EC_IS25LP080D_TIMEOUT true CMD_SECTOR_ERASE]) ∧
  calls is_hook (trace (IS25LP080D_WaitWhileBusy 5 CMD_SECTOR_ERASE
                          Stub.ready_at_once)) = [].
Proof.
  split.
  - destruct (proj1 (DriverProofs.timeout_reported_once
                       Stub.stuck_busy 5 CMD_SECTOR_ERASE))
      as (Hr & Hrtt & Hman & _); [reflexivity|].
    exact (conj Hr (conj Hrtt Hman)).
  - apply (proj2 (proj2 (DriverProofs.timeout_reported_once
                           Stub.ready_at_once 5 CMD_SECTOR_ERASE))).
    reflexivity.
Defined.

Lemma erase_size_dispatch_witness :
  IS25LP080D_Erase 5 0x3000 512 Stub.ready_at_once =
    (Some IS25LP080D_ERROR, Stub.ready_at_once, []) ∧
  ∃ ok rest,
    trace (IS25LP080D_Erase 5 0x3000 4096 Stub.ready_at_once) =
      [EvCSEnable SPI1_ID;
       EvTransmit IS25LP080D_SPI_LINE [CMD_WRITE_ENABLE] true;
       EvCSDisable SPI1_ID;
       EvCSEnable SPI1_ID;
       EvTransmit IS25LP080D_SPI_LINE (0x20 :: tail (cmd4 0 0x3000)) ok]
      ++ rest ∧
    (calls is_hook rest = [] ∨
     calls is_hook rest =
       [EvRTTPrintf RTT_EC_IS25LP080D_TIMEOUT 0x20;
        EvManageEventError EC_IS25LP080D_TIMEOUT true 0x20]).
Proof.
  split.
  - apply (proj1 (DriverProofs.erase_size_dispatch
                    Stub.ready_at_once 5 0x3000 512)); lia.
  - apply (proj2 (DriverProofs.erase_size_dispatch
                    Stub.ready_at_once 5 0x3000 4096) 0x20
             Stub.ready_at_once).
    + left. split; reflexivity.
    + reflexivity.
Defined.

Lemma command_frame_witness :
  cmd4 CMD_READ 0x12345 = [0x03; 0x01; 0x23; 0x45] ∧
  frame_addr (cmd4 CMD_READ 0x12345) = 0x12345.
Proof.
  destruct (DriverProofs.command_frame CMD_READ 0x12345)
    as (Hc & _ & Hf & _); [unfold CMD_READ; lia|lia|].
  split; [exact Hc|exact Hf].
Defined.

Lemma program_then_read_witness :
  ∃ d1 tr1,
    IS25LP080D_Program 10 0x12345 [1; 2; 3] 3 Device.erased =
      (Some 0, d1, tr1) ∧
    ∃ d2 tr2,
      IS25LP080D_Read 0x12345 [0; 0; 0] 3 d1 = ((0, [1; 2; 3]), d2, tr2).
Proof.
  apply (DeviceProofs.program_then_read Device.erased 0x12345 [1; 2; 3]
           [0; 0; 0] 10).
  - split; reflexivity.
  - reflexivity.
  - simpl. lia.
  - lia.
  - simpl. lia.
  - repeat constructor; lia.
  - reflexivity.
Defined.

(** A concrete layout: a 64-byte cache, an 84-byte file object, the pool at
    the start of the on-chip RAM. *)
Lemma acquire_clears_and_describes_witness :
  descr_type 64
    ((CP23_GetFileStructure 64 84 0x20000000 (fresh_pool 64 84)).1 !!! 0%nat)
    5 = 5 ∧
  descr_buffer 64
    ((CP23_GetFileStructure 64 84 0x20000000 (fresh_pool 64 84)).1 !!! 0%nat)
    5 = 0x20000000 + 24 ∧
  descr_size 64
    ((CP23_GetFileStructure 64 84 0x20000000 (fresh_pool 64 84)).1 !!! 0%nat)
    5 = 32.
Proof.
  destruct (PoolProofs.acquire_clears_and_describes 64 84 0x20000000
              (fresh_pool 64 84)
              (CP23_GetFileStructure 64 84 0x20000000 (fresh_pool 64 84)).1
              0%nat)
    as (_ & _ & _ & _ & Hd & _).
  - split; [reflexivity|]. repeat constructor.
  - lia.
  - vm_compute. discriminate.
  - vm_compute. reflexivity.
  - exact (Hd 5%nat ltac:(vm_compute; lia)).
Defined.

Lemma release_clears_only_the_flag_witness :
  allocated (CP23_ReleaseFileStructure (Some 2%nat) pool_in_use !!! 2%nat)
    = false ∧
  (CP23_ReleaseFileStructure (Some 2%nat) pool_in_use !!! 2%nat) !! 0%nat
    = Some 0x34.
Proof.
  destruct (PoolProofs.release_clears_only_the_flag 64 84 pool_in_use 2%nat)
    as (Hf & _ & Hb & _).
  - split; [reflexivity|]. repeat constructor.
  - vm_compute. lia.
  - reflexivity.
  - split; [exact Hf|]. rewrite Hb by (vm_compute; lia). reflexivity.
Defined.

End Instances.
(** * Further properties of the flash driver *)

Module DriverExtras.
Import Flash Trace Observe DriverProofs.

Lemma wait_trace_fail_fast op status tr r :
  wait_trace op status tr r → fail_fast tr = true.
Proof. induction 1; done. Qed.

(** The possible results of a busy-wait and what the trace shows for each. *)
Lemma wait_trace_cause op status tr r :
  wait_trace op status tr r →
  (r = None ∧ existsb is_failed tr = false ∧ existsb is_expired tr = false) ∨
  (r = Some 0 ∧ existsb is_failed tr = false ∧
   existsb is_expired tr = false) ∨
  (r = Some IS25LP080D_ERROR ∧
   xorb (existsb is_failed tr) (existsb is_expired tr) = true).
Proof.
  induction 1 as [| | | | |status buf tr r Hb Hw IH]; simpl; auto.
Qed.

Lemma wait_trace_sent op status tr r :
  wait_trace op status tr r →
  sent tr = replicate (length (sent tr)) [CMD_READ_STATUS] ∧
  (r = Some 0 → (1 ≤ length (sent tr))%nat).
Proof.
  induction 1 as [| | | | |status buf tr r Hb Hw [IH1 IH2]]; simpl;
    try (split; [done|intros; simplify_eq/=; lia]).
  split; [by rewrite <- IH1|lia].
Qed.

Lemma wait_trace_counts op status tr r :
  wait_trace op status tr r →
  let q := length (calls is_query tr) in
  let tx := length (calls is_transmit tr) in
  let rd := length (calls is_receive tr) in
  (rd ≤ tx ≤ q)%nat ∧ (q ≤ tx + 1)%nat ∧
  length (calls is_enable tr) = tx ∧
  (r = None → q = rd) ∧
  (r = Some 0 → q = rd ∧ (1 ≤ rd)%nat) ∧
  (existsb is_expired tr = true → q = S tx ∧ rd = tx) ∧
  (existsb is_failed tr = true → q = tx ∧ (tx ≤ rd + 1)%nat).
Proof.
  induction 1 as [| | | | |status buf tr r Hb Hw IH]; simpl in *;
    try (split_and!; intros; simplify_eq/=; lia).
  destruct IH as (I1 & I2 & I3 & I4 & I5 & I6 & I7).
  split_and!; [lia|lia|lia|lia|..].
  - intros Hr. specialize (I4 Hr). lia.
  - intros Hr. specialize (I5 Hr). lia.
  - intros Hx. specialize (I6 Hx). lia.
  - intros Hx. specialize (I7 Hx). lia.
Qed.

Section Generic.
Context {W : Type} `{Platform W}.

Lemma wait_loop_bound (fuel : nat) (op status : Z) (w : W) :
  (length (calls is_query (trace (wait_loop fuel op status w))) ≤ fuel)%nat ∧
  (result (wait_loop fuel op status w) = None →
   length (calls is_query (trace (wait_loop fuel op status w))) = fuel).
Proof.
  revert status w. induction fuel as [|fuel IH]; intros status w; [done|].
  simpl. unfold_m. repeat call_step; try (split; [lia|done]).
  destruct (negb _); [|split; [simpl; lia|done]].
  specialize (IH (hd status l) (SPI_CS_Disable SPI1_ID w2)).
  destruct (wait_loop fuel op _ _) as [[r w'] t]. simpl in *.
  destruct IH as [IH1 IH2]. split; [lia|]. intros Hr. by rewrite IH2.
Qed.

(** X1: A transfer that fails ends the operation: in every run of read, program,
    erase and the busy-wait, the first failed transmit or receive is
    followed by the release of chip-select and by no other call; there is no
    retry and no diagnostic for it. *)
Theorem transfer_failure_is_final (w : W) (fuel : nat) (addr size op : Z)
  (buffer : list Z) :
  fail_fast (trace (IS25LP080D_Read addr buffer size w)) = true ∧
  fail_fast (trace (IS25LP080D_Program fuel addr buffer size w)) = true ∧
  fail_fast (trace (IS25LP080D_Erase fuel addr size w)) = true ∧
  fail_fast (trace (IS25LP080D_WaitWhileBusy fuel op w)) = true.
Proof.
  assert (Hwait : ∀ op w,
    fail_fast (trace (IS25LP080D_WaitWhileBusy fuel op w)) = true).
  { intros op' w'.
    destruct (wait_while_busy_shape fuel op' w') as (tr & -> & Hs).
    by apply wait_trace_fail_fast in Hs. }
  split_and!.
  - unfold IS25LP080D_Read. unfold_m. repeat call_step; done.
  - unfold IS25LP080D_Program. unfold_m. repeat call_step; try done.
    specialize (Hwait CMD_PAGE_PROGRAM (SPI_CS_Disable SPI1_ID w2)).
    destruct (IS25LP080D_WaitWhileBusy _ _ _) as [[r w'] t]. done.
  - unfold IS25LP080D_Erase.
    destruct (size =? 4096); [|destruct (size =? 65536)]; [| |done].
    all: unfold_m; repeat call_step; try done.
    all: match goal with |- context [IS25LP080D_WaitWhileBusy ?f ?o ?x] =>
           specialize (Hwait o x);
           destruct (IS25LP080D_WaitWhileBusy f o x) as [[r w'] t] end.
    all: done.
  - apply Hwait.
Qed.

Lemma wait_while_busy_cause (w : W) (fuel : nat) (op : Z) :
  let run := IS25LP080D_WaitWhileBusy fuel op w in
  (result run = None ∧ existsb is_failed (trace run) = false ∧
   existsb is_expired (trace run) = false) ∨
  (result run = Some 0 ∧ existsb is_failed (trace run) = false ∧
   existsb is_expired (trace run) = false) ∨
  (result run = Some IS25LP080D_ERROR ∧
   xorb (existsb is_failed (trace run)) (existsb is_expired (trace run))
   = true).
Proof.
  cbv zeta. destruct (wait_while_busy_shape fuel op w) as (tr & -> & Hs).
  apply wait_trace_cause in Hs. exact Hs.
Qed.

(** X2: The result tells what happened.  Read returns 0 when no transfer failed
    and the error code when one did.  Program, erase and the busy-wait return
    0 only if no transfer failed and the timer never reported the timeout;
    they return the error code exactly when a transfer failed or the timeout
    was reported (never both), or, for erase, when the size is neither 4096
    nor 65536 and nothing was done at all; no other value is returned. *)
Theorem result_tells_cause (w : W) (fuel : nat) (addr size op : Z)
  (buffer : list Z) :
  (let run := IS25LP080D_Read addr buffer size w in
   ((result run).1 = 0 ∧ existsb is_failed (trace run) = false) ∨
   ((result run).1 = IS25LP080D_ERROR ∧
    existsb is_failed (trace run) = true)) ∧
  (let run := IS25LP080D_WaitWhileBusy fuel op w in
   (result run = None ∧ existsb is_failed (trace run) = false ∧
    existsb is_expired (trace run) = false) ∨
   (result run = Some 0 ∧ existsb is_failed (trace run) = false ∧
    existsb is_expired (trace run) = false) ∨
   (result run = Some IS25LP080D_ERROR ∧
    xorb (existsb is_failed (trace run)) (existsb is_expired (trace run))
    = true)) ∧
  (let run := IS25LP080D_Program fuel addr buffer size w in
   (result run = None ∧ existsb is_failed (trace run) = false ∧
    existsb is_expired (trace run) = false) ∨
   (result run = Some 0 ∧ existsb is_failed (trace run) = false ∧
    existsb is_expired (trace run) = false) ∨
   (result run = Some IS25LP080D_ERROR ∧
    xorb (existsb is_failed (trace run)) (existsb is_expired (trace run))
    = true)) ∧
  (let run := IS25LP080D_Erase fuel addr size w in
   (result run = None ∧ existsb is_failed (trace run) = false ∧
    existsb is_expired (trace run) = false) ∨
   (result run = Some 0 ∧ existsb is_failed (trace run) = false ∧
    existsb is_expired (trace run) = false) ∨
   (result run = Some IS25LP080D_ERROR ∧
    xorb (existsb is_failed (trace run)) (existsb is_expired (trace run))
    = true) ∨
   (result run = Some IS25LP080D_ERROR ∧ trace run = [] ∧
    size ≠ 4096 ∧ size ≠ 65536)).
Proof.
  cbv zeta. split_and!.
  - unfold IS25LP080D_Read. unfold_m. repeat call_step; auto.
  - apply wait_while_busy_cause.
  - unfold IS25LP080D_Program. unfold_m. repeat call_step; auto.
    pose proof (wait_while_busy_cause (SPI_CS_Disable SPI1_ID w2) fuel
                  CMD_PAGE_PROGRAM) as Hc.
    destruct (IS25LP080D_WaitWhileBusy _ _ _) as [[r w'] t]. exact Hc.
  - unfold IS25LP080D_Erase.
    destruct (Z.eqb_spec size 4096); [|destruct (Z.eqb_spec size 65536)].
    3: { right; right; right. done. }
    all: unfold_m; repeat call_step; auto.
    all: match goal with |- context [IS25LP080D_WaitWhileBusy ?f ?o ?x] =>
           pose proof (wait_while_busy_cause x f o) as Hc;
           destruct (IS25LP080D_WaitWhileBusy f o x) as [[r w'] t] end.
    all: cbv zeta in Hc; simpl in *; tauto.
Qed.



(** X5: Accounting for the polls of one busy-wait: the timer is queried at most
    once per allowed iteration and exactly once before every status read;
    chip-select is asserted once per read-status command.  A busy-wait that
    is still polling, or that succeeded, has read the status as often as it
    queried the timer; one that saw the timeout has queried the timer once
    more than it read the status. *)
Theorem busy_wait_poll_accounting (w : W) (fuel : nat) (op : Z) :
  let run := IS25LP080D_WaitWhileBusy fuel op w in
  let q := length (calls is_query (trace run)) in
  let tx := length (calls is_transmit (trace run)) in
  let rd := length (calls is_receive (trace run)) in
  (q ≤ fuel)%nat ∧ (rd ≤ tx ≤ q)%nat ∧ (q ≤ tx + 1)%nat ∧
  length (calls is_enable (trace run)) = tx ∧
  (result run = None → q = fuel ∧ rd = fuel) ∧
  (result run = Some 0 → q = rd ∧ (1 ≤ rd)%nat) ∧
  (existsb is_expired (trace run) = true → q = S rd ∧ rd = tx).
Proof.
  cbv zeta.
  destruct (wait_while_busy_shape fuel op w) as (tr & Htr & Hs).
  pose proof (wait_trace_counts _ _ _ _ Hs) as Hc. cbv zeta in Hc.
  destruct Hc as (I1 & I2 & I3 & I4 & I5 & I6 & _).
  assert (Hb : (length (calls is_query tr) ≤ fuel)%nat ∧
               (result (IS25LP080D_WaitWhileBusy fuel op w) = None →
                length (calls is_query tr) = fuel)).
  { clear -Htr. unfold IS25LP080D_WaitWhileBusy in *. unfold_m.
    pose proof (wait_loop_bound fuel op 0 (LoadSWTimer w)) as Hb.
    destruct (wait_loop fuel op 0 _) as [[r w'] t]. simpl in *.
    by simplify_eq. }
  destruct Hb as [Hb1 Hb2]. rewrite Htr. simpl.
  split_and!; try lia; try done.
  - intros Hr. specialize (I4 Hr). specialize (Hb2 Hr). lia.
  - intros Hx. specialize (I6 Hx). lia.
Qed.

End Generic.

(** ** The busy-wait against the scripted stub *)

Import Stub Scenario.

Lemma wait_loop_busy_for (n : nat) :
  ∀ (fuel : nat) (op status : Z),
    (n < fuel)%nat →
    ∃ tr, wait_loop fuel op status (busy_for n) =
            (Some 0,
             {| tx_script := []; rx_script := []; timer_script := [] |}, tr) ∧
          length (calls is_receive tr) = S n ∧
          length (calls is_query tr) = S n ∧
          calls is_hook tr = [].
Proof.
  induction n as [|n IH]; intros fuel op status Hf.
  - destruct fuel as [|fuel]; [lia|]. eexists. split; [reflexivity|done].
  - destruct fuel as [|fuel]; [lia|].
    destruct (IH fuel op 1 ltac:(lia)) as (tr & Hrun & Hrd & Hq & Hh).
    eexists. split.
    + cbn [wait_loop]. unfold_m. cbn. unfold busy_for in Hrun. cbn in Hrun.
      change (negb (Z.land 1 1 =? 0)) with true. cbn.
      rewrite Hrun. reflexivity.
    + simpl. rewrite Hrd, Hq, Hh. done.
Qed.

Lemma wait_loop_busy_forever (k : nat) :
  ∀ (fuel : nat) (op status : Z),
    (k < fuel)%nat →
    ∃ tr, wait_loop fuel op status (busy_forever k) =
            (Some IS25LP080D_ERROR,
             {| tx_script := []; rx_script := []; timer_script := [] |}, tr) ∧
          length (calls is_receive tr) = k ∧
          length (calls is_query tr) = S k ∧
          calls is_hook tr = timeout_hooks op.
Proof.
  induction k as [|k IH]; intros fuel op status Hf.
  - destruct fuel as [|fuel]; [lia|]. eexists. split; [reflexivity|done].
  - destruct fuel as [|fuel]; [lia|].
    destruct (IH fuel op 1 ltac:(lia)) as (tr & Hrun & Hrd & Hq & Hh).
    eexists. split.
    + cbn [wait_loop]. unfold_m. cbn. unfold busy_forever in Hrun.
      cbn in Hrun. change (negb (Z.land 1 1 =? 0)) with true. cbn.
      rewrite Hrun. reflexivity.
    + simpl. rewrite Hrd, Hq, Hh. done.
Qed.

(** X6: Against a device that reports busy for [n] polls and then ready, with
    the timer not expiring meanwhile, the busy-wait returns 0 after exactly
    [n + 1] status reads and without any diagnostic. *)
Theorem busy_then_ready (n fuel : nat) (op : Z) :
  (n < fuel)%nat →
  let run := IS25LP080D_WaitWhileBusy fuel op (busy_for n) in
  result run = Some 0 ∧
  length (calls is_receive (trace run)) = S n ∧
  length (calls is_query (trace run)) = S n ∧
  calls is_hook (trace run) = [].
Proof.
  intros Hf. cbv zeta. unfold IS25LP080D_WaitWhileBusy. unfold_m.
  destruct (wait_loop_busy_for n fuel op 0 Hf) as (tr & Hrun & Hrd & Hq & Hh).
  change (LoadSWTimer (busy_for n)) with (busy_for n). rewrite Hrun. done.
Qed.

(** X7: Against a device that always reports busy, with the timer expiring at
    its query number [k + 1], the busy-wait gives up after exactly [k]
    status reads, reports the timeout once to both diagnostic services with
    the opcode it was given, and returns the error code. *)
Theorem always_busy_times_out (k fuel : nat) (op : Z) :
  (k < fuel)%nat →
  let run := IS25LP080D_WaitWhileBusy fuel op (busy_forever k) in
  result run = Some IS25LP080D_ERROR ∧
  length (calls is_receive (trace run)) = k ∧
  length (calls is_query (trace run)) = S k ∧
  calls is_hook (trace run) = timeout_hooks op.
Proof.
  intros Hf. cbv zeta. unfold IS25LP080D_WaitWhileBusy. unfold_m.
  destruct (wait_loop_busy_forever k fuel op 0 Hf)
    as (tr & Hrun & Hrd & Hq & Hh).
  change (LoadSWTimer (busy_forever k)) with (busy_forever k).
  rewrite Hrun. done.
Qed.

Lemma sent_length (tr : list event) :
  length (sent tr) = length (calls is_transmit tr).
Proof.
  induction tr as [|[] tr IH]; simpl; auto.
Qed.

Lemma busy_for_wait (n fuel : nat) (op : Z) :
  (n < fuel)%nat →
  ∃ tr, IS25LP080D_WaitWhileBusy fuel op (busy_for n) =
          (Some 0,
           {| tx_script := []; rx_script := []; timer_script := [] |}, tr) ∧
        sent tr = replicate (S n) [CMD_READ_STATUS] ∧
        length (calls is_enable tr) = S n.
Proof.
  intros Hf.
  destruct (wait_loop_busy_for n fuel op 0 Hf) as (tr & Hrun & Hrd & Hq & _).
  pose proof (wait_loop_shape fuel op 0 (busy_for n)) as Hs.
  rewrite Hrun in Hs. unfold trace, result in Hs. cbn [fst snd] in Hs.
  destruct (wait_trace_sent _ _ _ _ Hs) as [Hsent _].
  pose proof (wait_trace_counts _ _ _ _ Hs) as Hc. cbv zeta in Hc.
  destruct Hc as (I1 & I2 & I3 & _).
  assert (length (calls is_transmit tr) = S n) as Htx by lia.
  assert (sent tr = replicate (S n) [CMD_READ_STATUS]) as Hsent'.
  { etrans; [exact Hsent|]. by rewrite sent_length, Htx. }
  exists (EvLoadSWTimer :: tr). split_and!.
  - unfold IS25LP080D_WaitWhileBusy. unfold_m.
    change (LoadSWTimer (busy_for n)) with (busy_for n).
    rewrite Hrun. reflexivity.
  - exact Hsent'.
  - change (calls is_enable (EvLoadSWTimer :: tr)) with (calls is_enable tr).
    lia.
Qed.

(** X8: Program and erase run to completion: against a transport that never
    fails and a device that is busy for [n] polls, both return 0 after
    write-enable, the command (with the payload, for program) and exactly
    [n + 1] status reads, in [n + 3] chip-select windows. *)
Theorem program_and_erase_complete (n fuel : nat) (addr size : Z)
  (buffer : list Z) :
  (n < fuel)%nat →
  (let run := IS25LP080D_Program fuel addr buffer size (busy_for n) in
   result run = Some 0 ∧
   sent (trace run) =
     [[CMD_WRITE_ENABLE]; cmd4 CMD_PAGE_PROGRAM addr; bytes_at buffer size]
     ++ replicate (S n) [CMD_READ_STATUS] ∧
   length (calls is_enable (trace run)) = (n + 3)%nat) ∧
  (let run := IS25LP080D_Erase fuel addr 4096 (busy_for n) in
   result run = Some 0 ∧
   sent (trace run) =
     [[CMD_WRITE_ENABLE]; CMD_SECTOR_ERASE :: tail (cmd4 0 addr)]
     ++ replicate (S n) [CMD_READ_STATUS] ∧
   length (calls is_enable (trace run)) = (n + 3)%nat) ∧
  (let run := IS25LP080D_Erase fuel addr 65536 (busy_for n) in
   result run = Some 0 ∧
   sent (trace run) =
     [[CMD_WRITE_ENABLE]; CMD_BLOCK_ERASE :: tail (cmd4 0 addr)]
     ++ replicate (S n) [CMD_READ_STATUS] ∧
   length (calls is_enable (trace run)) = (n + 3)%nat).
Proof.
  intros Hf. cbv zeta.
  assert (Hw : ∀ op, ∃ tr,
    IS25LP080D_WaitWhileBusy fuel op
      {| tx_script := [];
         rx_script := replicate n (true, [1]) ++ [(true, [0])];
         timer_script := false :: replicate n false |} =
      (Some 0, {| tx_script := []; rx_script := []; timer_script := [] |}, tr)
    ∧ sent tr = replicate (S n) [CMD_READ_STATUS]
    ∧ length (calls is_enable tr) = S n).
  { intros op. exact (busy_for_wait n fuel op Hf). }
  split; [|split].
  - unfold IS25LP080D_Program. unfold_m.
    cbn [SPI_Transmit SPI_CS_Enable SPI_CS_Disable stub_platform hd tl
         tx_script rx_script timer_script negb busy_for replicate].
    destruct (Hw CMD_PAGE_PROGRAM) as (tr & -> & Hsent & Hen).
    simpl in *. rewrite Hsent, Hen. split_and!; [done|done|f_equal; lia].
  - unfold IS25LP080D_Erase.
    assert ((if 4096 =? 4096
             then Some (<[0%nat:=CMD_SECTOR_ERASE]> (cmd4 0 addr))
             else if 4096 =? 65536
                  then Some (<[0%nat:=CMD_BLOCK_ERASE]> (cmd4 0 addr))
                  else None) = Some (CMD_SECTOR_ERASE :: tail (cmd4 0 addr)))
      as -> by done.
    unfold_m.
    cbn [SPI_Transmit SPI_CS_Enable SPI_CS_Disable stub_platform hd tl
         tx_script rx_script timer_script negb busy_for replicate].
    destruct (Hw CMD_SECTOR_ERASE) as (tr & -> & Hsent & Hen).
    simpl in *. rewrite Hsent, Hen. split_and!; [done|done|f_equal; lia].
  - unfold IS25LP080D_Erase.
    assert ((if 65536 =? 4096
             then Some (<[0%nat:=CMD_SECTOR_ERASE]> (cmd4 0 addr))
             else if 65536 =? 65536
                  then Some (<[0%nat:=CMD_BLOCK_ERASE]> (cmd4 0 addr))
                  else None) = Some (CMD_BLOCK_ERASE :: tail (cmd4 0 addr)))
      as -> by done.
    unfold_m.
    cbn [SPI_Transmit SPI_CS_Enable SPI_CS_Disable stub_platform hd tl
         tx_script rx_script timer_script negb busy_for replicate].
    destruct (Hw CMD_BLOCK_ERASE) as (tr & -> & Hsent & Hen).
    simpl in *. rewrite Hsent, Hen. split_and!; [done|done|f_equal; lia].
Qed.

End DriverExtras.
(** * Further properties of the pure helpers *)

Module PureExtras.
Import Attr Flash ErrorCode.

Lemma split32_b_low (addr : Z) (sel : nat) :
  (sel ≤ 2)%nat → split32_b addr sel = split32_b (addr mod 2 ^ 24) sel.
Proof.
  intros Hs. unfold split32_b, uint32.
  destruct sel as [|[|[|?]]]; [| | |lia]; simpl;
    Z.div_mod_to_equations; lia.
Qed.

(** X9: A command frame keeps the low 8 bits of the opcode and the low 24 bits
    of the address and nothing else: every byte of it is in range, an
    address above 2^24 frames like its remainder modulo 2^24, and two frames
    are equal only if opcode and address agree in those bits. *)
Theorem frame_keeps_low_bits (opcode addr opcode' addr' : Z) :
  Forall (λ b, 0 ≤ b < 256) (cmd4 opcode addr) ∧
  cmd4 opcode addr = cmd4 (opcode mod 256) (addr mod 2 ^ 24) ∧
  (cmd4 opcode addr = cmd4 opcode' addr' ↔
   opcode mod 256 = opcode' mod 256 ∧ addr mod 2 ^ 24 = addr' mod 2 ^ 24).
Proof.
  assert (Hlow : ∀ o a, cmd4 o a = cmd4 (o mod 256) (a mod 2 ^ 24)).
  { intros o a. unfold cmd4, uint8.
    rewrite Z.mod_mod by lia.
    by rewrite (split32_b_low a SPLIT_T0), (split32_b_low a SPLIT_T1),
      (split32_b_low a SPLIT_T2) by (unfold SPLIT_T0, SPLIT_T1, SPLIT_T2; lia). }
  split_and!.
  - unfold cmd4, split32_b, uint8, uint32. simpl.
    repeat constructor; apply Z.mod_pos_bound; lia.
  - apply Hlow.
  - split.
    + intros Heq. rewrite (Hlow opcode addr), (Hlow opcode' addr') in Heq.
      pose proof (Z.mod_pos_bound addr (2 ^ 24) ltac:(lia)) as Ha.
      pose proof (Z.mod_pos_bound addr' (2 ^ 24) ltac:(lia)) as Ha'.
      pose proof (Z.mod_pos_bound opcode 256 ltac:(lia)) as Ho.
      pose proof (Z.mod_pos_bound opcode' 256 ltac:(lia)) as Ho'.
      split.
      * apply (f_equal (λ l, hd 0 l)) in Heq. unfold cmd4, uint8 in Heq.
        simpl in Heq. by rewrite !Z.mod_mod in Heq by lia.
      * apply (f_equal frame_addr) in Heq.
        by rewrite !DriverProofs.frame_addr_cmd4 in Heq by lia.
    + intros [Ho Ha]. by rewrite (Hlow opcode addr), (Hlow opcode' addr'), Ho, Ha.
Qed.

(** X10: Packing four 2-bit permissions into an authorization byte and decoding
    it gives the four permissions back, and the owner group is the low two
    bits of the flags byte whatever the unused upper bits hold. *)
Theorem auth_pack_unpack (user mnf bp sys group rest : Z) :
  0 ≤ user < 4 → 0 ≤ mnf < 4 → 0 ≤ bp < 4 → 0 ≤ sys < 4 →
  0 ≤ group < 4 →
  let auth := user + 4 * mnf + 16 * bp + 64 * sys in
  0 ≤ auth < 256 ∧
  LfsUserAuth auth = user ∧ LfsMNFAuth auth = mnf ∧
  LfsBPAuth auth = bp ∧ LfsSysAuth auth = sys ∧
  LfsOwnerGroup (group + 4 * rest) = group.
Proof.
  intros Hu Hm Hb Hs Hg auth. subst auth.
  unfold LfsUserAuth, LfsMNFAuth, LfsBPAuth, LfsSysAuth, LfsOwnerGroup.
  rewrite !land_3_mod, !Z.shiftr_div_pow2 by lia.
  change (2 ^ 2) with 4. change (2 ^ 4) with 16. change (2 ^ 6) with 64.
  split_and!; try lia; Z.div_mod_to_equations; lia.
Qed.

Lemma int32_small (x : Z) : - 2 ^ 31 ≤ x < 2 ^ 31 → int32 x = x.
Proof. intros Hx. unfold int32. rewrite Z.mod_small; lia. Qed.

(** X11: The combined error code: no error maps to [CP23LFS_OK], and a native
    error code [lfsec <= 0] that does not reach below the offset maps to
    [offset + lfsec] without wrapping, so different native codes get
    different combined codes and the native code is recovered by
    subtracting the offset. *)
Theorem errorcode_offset (offset lfsec lfsec' : Z) :
  0 ≤ offset < 2 ^ 31 →
  - offset ≤ lfsec ≤ 0 → - offset ≤ lfsec' ≤ 0 →
  CP23LFS_ERRORCODE offset 0 = CP23LFS_OK offset ∧
  CP23LFS_ERRORCODE offset lfsec = offset + lfsec ∧
  CP23LFS_ERRORCODE offset lfsec - CP23LFS_OK offset = lfsec ∧
  (CP23LFS_ERRORCODE offset lfsec = CP23LFS_OK offset ↔ lfsec = 0) ∧
  (CP23LFS_ERRORCODE offset lfsec = CP23LFS_ERRORCODE offset lfsec' ↔
   lfsec = lfsec').
Proof.
  intros Ho Hl Hl'.
  assert (Hcode : ∀ e, - offset ≤ e ≤ 0 →
            CP23LFS_ERRORCODE offset e = offset + e).
  { intros e He. unfold CP23LFS_ERRORCODE, uint32.
    rewrite !int32_small by lia. rewrite Z.mod_small; lia. }
  unfold CP23LFS_OK. rewrite !Hcode by lia. split_and!; try lia.
Qed.

End PureExtras.
(** * Worked instances of the further properties *)

Module ExtraInstances.
Import Flash Trace Observe Pool PoolCalls Stub Scenario Device Attr ErrorCode.


Lemma busy_wait_poll_accounting_witness :
  (length (calls is_query
      (trace (IS25LP080D_WaitWhileBusy 5 CMD_PAGE_PROGRAM (busy_for 2)))) =
   length (calls is_receive
      (trace (IS25LP080D_WaitWhileBusy 5 CMD_PAGE_PROGRAM (busy_for 2)))) ∧
   (1 ≤ length (calls is_receive
      (trace (IS25LP080D_WaitWhileBusy 5 CMD_PAGE_PROGRAM (busy_for 2)))))%nat)
  ∧
  (length (calls is_query
      (trace (IS25LP080D_WaitWhileBusy 1 CMD_PAGE_PROGRAM (busy_for 2)))) = 1%nat
   ∧
   length (calls is_receive
      (trace (IS25LP080D_WaitWhileBusy 1 CMD_PAGE_PROGRAM (busy_for 2)))) = 1%nat)
  ∧
  length (calls is_query
      (trace (IS25LP080D_WaitWhileBusy 5 CMD_PAGE_PROGRAM (busy_forever 1)))) =
  S (length (calls is_receive
      (trace (IS25LP080D_WaitWhileBusy 5 CMD_PAGE_PROGRAM (busy_forever 1))))).
Proof.
  split; [|split].
  - destruct (DriverExtras.busy_wait_poll_accounting (busy_for 2) 5
                CMD_PAGE_PROGRAM) as (_ & _ & _ & _ & _ & Hok & _).
    apply Hok. reflexivity.
  - destruct (DriverExtras.busy_wait_poll_accounting (busy_for 2) 1
                CMD_PAGE_PROGRAM) as (_ & _ & _ & _ & Hnone & _).
    apply Hnone. reflexivity.
  - destruct (DriverExtras.busy_wait_poll_accounting (busy_forever 1) 5
                CMD_PAGE_PROGRAM) as (_ & _ & _ & _ & _ & _ & Hexp).
    apply Hexp. reflexivity.
Defined.

Lemma busy_then_ready_witness :
  result (IS25LP080D_WaitWhileBusy 3 CMD_PAGE_PROGRAM (busy_for 2)) = Some 0 ∧
  length (calls is_receive
    (trace (IS25LP080D_WaitWhileBusy 3 CMD_PAGE_PROGRAM (busy_for 2)))) = 3%nat.
Proof.
  destruct (DriverExtras.busy_then_ready 2 3 CMD_PAGE_PROGRAM ltac:(lia))
    as (Hr & Hrd & _).
  exact (conj Hr Hrd).
Defined.

Lemma always_busy_times_out_witness :
  result (IS25LP080D_WaitWhileBusy 3 CMD_BLOCK_ERASE (busy_forever 2))
    = Some IS25LP080D_ERROR ∧
  calls is_hook
    (trace (IS25LP080D_WaitWhileBusy 3 CMD_BLOCK_ERASE (busy_forever 2)))
    = timeout_hooks CMD_BLOCK_ERASE.
Proof.
  destruct (DriverExtras.always_busy_times_out 2 3 CMD_BLOCK_ERASE
              ltac:(lia)) as (Hr & _ & _ & Hh).
  exact (conj Hr Hh).
Defined.

Lemma program_and_erase_complete_witness :
  result (IS25LP080D_Program 2 0x12345 [7; 8; 9] 3 (busy_for 1)) = Some 0 ∧
  result (IS25LP080D_Erase 2 0x12000 4096 (busy_for 1)) = Some 0 ∧
  result (IS25LP080D_Erase 2 0x10000 65536 (busy_for 1)) = Some 0.
Proof.
  split; [|split].
  - exact (proj1 (proj1 (DriverExtras.program_and_erase_complete
                           1 2 0x12345 3 [7; 8; 9] ltac:(lia)))).
  - exact (proj1 (proj1 (proj2 (DriverExtras.program_and_erase_complete
                                  1 2 0x12000 3 [] ltac:(lia))))).
  - exact (proj1 (proj2 (proj2 (DriverExtras.program_and_erase_complete
                                  1 2 0x10000 3 [] ltac:(lia))))).
Defined.

Lemma frame_keeps_low_bits_witness :
  cmd4 0x103 0x1012345 = cmd4 CMD_READ 0x12345.
Proof.
  apply (proj2 (proj2 (PureExtras.frame_keeps_low_bits
                         0x103 0x1012345 CMD_READ 0x12345))).
  split; reflexivity.
Defined.

Lemma auth_pack_unpack_witness :
  LfsUserAuth 0xF4 = 0 ∧ LfsMNFAuth 0xF4 = 1 ∧ LfsBPAuth 0xF4 = 3 ∧
  LfsSysAuth 0xF4 = 3 ∧ LfsOwnerGroup (2 + 4 * 5) = 2.
Proof.
  destruct (PureExtras.auth_pack_unpack 0 1 3 3 2 5)
    as (_ & Hu & Hm & Hb & Hs & Hg); [lia..|].
  exact (conj Hu (conj Hm (conj Hb (conj Hs Hg)))).
Defined.

Lemma errorcode_offset_witness :
  CP23LFS_ERRORCODE 1000 (-5) = 995 ∧
  (CP23LFS_ERRORCODE 1000 (-5) = CP23LFS_ERRORCODE 1000 (-84) ↔ -5 = -84).
Proof.
  destruct (PureExtras.errorcode_offset 1000 (-5) (-84))
    as (_ & Hc & _ & _ & Hinj); [lia..|].
  exact (conj Hc Hinj).
Defined.

Lemma full_pool_well_formed : well_formed 64 84 full_pool.
Proof. split; [reflexivity|]. repeat constructor. Qed.

Lemma fresh_pool_well_formed : well_formed 64 84 (fresh_pool 64 84).
Proof. split; [reflexivity|]. repeat constructor. Qed.

Lemma acquire_exhausted_witness :
  CP23_GetFileStructure 64 84 0x20000000 full_pool = (full_pool, None).
Proof.
  destruct (PoolProofs.acquire_exhausted 64 84 0x20000000 full_pool
              full_pool_well_formed) as [Hiff Hsame].
  assert ((CP23_GetFileStructure 64 84 0x20000000 full_pool).2 = None) as Hn.
  { apply Hiff. intros j Hj.
    do 8 (destruct j as [|j]; [reflexivity|]). vm_compute in Hj. lia. }
  specialize (Hsame Hn).
  destruct (CP23_GetFileStructure 64 84 0x20000000 full_pool) as [p' r].
  simpl in *. by subst.
Defined.

Lemma acquire_lowest_free_witness :
  (CP23_GetFileStructure 64 84 0x20000000
     (<[5%nat := replicate 340 0]> full_pool)).2 = Some 5%nat.
Proof.
  apply (proj1 (PoolProofs.acquire_lowest_free 64 84 0x20000000
                  (<[5%nat := replicate 340 0]> full_pool) 5%nat
                  ltac:(split; [reflexivity|repeat constructor]))).
  split; [vm_compute; lia|]. split; [reflexivity|].
  intros j Hj. do 5 (destruct j as [|j]; [reflexivity|]). lia.
Defined.

Lemma acquire_file_config_witness :
  load32 ((CP23_GetFileStructure 64 84 0x20000000 (fresh_pool 64 84)).1
            !!! 0%nat) (off_fileCfg 64 + cfg_attrs) = 0x20000000 + 160 ∧
  load32 ((CP23_GetFileStructure 64 84 0x20000000 (fresh_pool 64 84)).1
            !!! 0%nat) (off_fileCfg 64 + cfg_attr_count) = 7.
Proof.
  destruct (PoolProofs.acquire_file_config 64 84 0x20000000
              (fresh_pool 64 84)
              (CP23_GetFileStructure 64 84 0x20000000 (fresh_pool 64 84)).1
              0%nat fresh_pool_well_formed)
    as (Ha & Hc & _); [lia|vm_compute; discriminate|vm_compute; reflexivity|].
  exact (conj Ha Hc).
Defined.

Lemma descriptors_disjoint_witness :
  (descr_buffer 64
     ((CP23_GetFileStructure 64 84 0x20000000 (fresh_pool 64 84)).1 !!! 0%nat)
     1 +
   descr_size 64
     ((CP23_GetFileStructure 64 84 0x20000000 (fresh_pool 64 84)).1 !!! 0%nat)
     1
   ≤ descr_buffer 64
     ((CP23_GetFileStructure 64 84 0x20000000 (fresh_pool 64 84)).1 !!! 0%nat)
     2).
Proof.
  destruct (PoolProofs.descriptors_disjoint 64 84 0x20000000
              (fresh_pool 64 84)
              (CP23_GetFileStructure 64 84 0x20000000 (fresh_pool 64 84)).1
              0%nat fresh_pool_well_formed)
    as (_ & Hd & _); [lia|vm_compute; discriminate|vm_compute; reflexivity|].
  apply Hd; [lia|vm_compute; lia].
Defined.

Lemma release_then_acquire_witness :
  (CP23_GetFileStructure 64 84 0x20000000
     (CP23_ReleaseFileStructure (Some 3%nat) full_pool)).2 = Some 3%nat.
Proof.
  destruct (PoolProofs.release_then_acquire 64 84 0x20000000 full_pool 3%nat
              full_pool_well_formed) as (Hh & _).
  - vm_compute. lia.
  - intros j Hj. do 8 (destruct j as [|j]; [reflexivity|]).
    vm_compute in Hj. lia.
  - exact Hh.
Defined.

Lemma acquire_twice_same_witness :
  CP23_GetFileStructure 64 84 0x20000000
    (CP23_GetFileStructure 64 84 0x20000000 (fresh_pool 64 84)).1 =
  ((CP23_GetFileStructure 64 84 0x20000000 (fresh_pool 64 84)).1, Some 0%nat).
Proof.
  apply (PoolProofs.acquire_twice_same 64 84 0x20000000 (fresh_pool 64 84)
           _ 0%nat fresh_pool_well_formed).
  vm_compute. reflexivity.
Defined.

Lemma release_idempotent_commutes_witness :
  CP23_ReleaseFileStructure (Some 1%nat)
    (CP23_ReleaseFileStructure (Some 2%nat) full_pool) =
  CP23_ReleaseFileStructure (Some 2%nat)
    (CP23_ReleaseFileStructure (Some 1%nat) full_pool).
Proof.
  apply (proj2 (PoolProofs.release_idempotent_commutes full_pool 1%nat 2%nat)).
  lia.
Defined.

Lemma reachable_pool_all_free_witness :
  (CP23_GetFileStructure 64 84 0x20000000
     (run_calls 64 84 0x20000000
        [Acquire; Release 0; Acquire; Acquire; Release 3]
        (fresh_pool 64 84))).2 = Some 0%nat.
Proof.
  destruct (PoolProofs.reachable_pool_all_free 64 84 0x20000000
              [Acquire; Release 0; Acquire; Acquire; Release 3])
    as (_ & _ & Hnext).
  - repeat constructor; vm_compute; lia.
  - exact Hnext.
Defined.

End ExtraInstances.
